(** * QuantumTradePro: technical indicators and their cache

    A shallow embedding of the indicator engine of
    [server/stockService.ts] ([calculateRSI], [calculateMACD],
    [calculateEMA], [calculateSMA], [calculateBollingerBands],
    [calculateTechnicalIndicators]), of the in-memory store of
    [server/storage.ts] ([MemStorage]) and of the
    [/api/stock/:symbol/technical] handler of [server/routes.ts].

    The TypeScript type [number] is an interface here ([JsNumber]): the
    indicator code is written once against it and read at two instances,
    - [binary64]: IEEE-754 doubles (Rocq's primitive floats), which runs;
    - [ideal]: exact real arithmetic extended with NaN and the two
      infinities, in which rounding error and overflow do not exist.
    Properties quantified over all price series are proved at [ideal],
    for finite closes; concrete scenarios are stated at both instances.
    What [ideal] leaves out is the far end of binary64: closes near the
    largest double (1.8e308) make sums overflow to Infinity, and then
    [calculateRSI] and the lower Bollinger band are NaN.

    What the code reads from outside is an input of the embedding: the
    clock ([Date.now()], [new Date()]) is a reading [now], the answer of
    [stockService.getHistoricalPrices] is a function [upstream], and the
    zod schema of the symbol is a function [parseSymbol]. *)

From Stdlib Require Import ZArith List Bool Lia Reals Lra Floats.
From stdpp Require Import base option list strings gmap.

Local Open Scope Z_scope.

(** ** Arrays *)

Module JsArray.

(** [xs.slice(start)]: a negative [start] counts from the end, and the
    resulting index is clamped to [0 .. xs.length]. *)
Definition slice {A} (start : Z) (xs : list A) : list A :=
  let len := Z.of_nat (length xs) in
  let k := if start <? 0 then Z.max (len + start) 0 else Z.min start len in
  drop (Z.to_nat k) xs.

(** [xs.reduce(f, init)] *)
Definition reduce {A B} (f : B -> A -> B) (init : B) (xs : list A) : B :=
  fold_left f xs init.

(** [xs.length] *)
Definition len {A} (xs : list A) : Z := Z.of_nat (length xs).

End JsArray.

(** ** Numbers *)

(** What the indicator code asks of [number]. *)
Class JsNumber (N : Type) := {
  of_Z : Z -> N;                 (* an integer literal, a length, a period *)
  nan : N;
  add : N -> N -> N;
  sub : N -> N -> N;
  mul : N -> N -> N;
  div : N -> N -> N;
  ltb : N -> N -> bool;          (* [x < y] *)
  eqb : N -> N -> bool;          (* [x === y] *)
  Math_abs : N -> N;
  Math_sqrt : N -> N;
  toFixed2 : N -> N              (* [Number(x.toFixed(2))] *)
}.

Declare Scope js_scope.
Delimit Scope js_scope with js.
Infix "+" := add : js_scope.
Infix "-" := sub : js_scope.
Infix "*" := mul : js_scope.
Infix "/" := div : js_scope.

(** ** Series utilities ([stockService.ts], lines 310-376) *)

Section Indicators.
Context {N : Type} `{JsNumber N}.

(** The literals [0.8] and [0.2]: the number nearest to 8/10 and 2/10. *)
Definition lit_0_8 : N := (of_Z 8 / of_Z 10)%js.
Definition lit_0_2 : N := (of_Z 2 / of_Z 10)%js.

(** [Math.pow(x, 2)] *)
Definition Math_pow2 (x : N) : N := (x * x)%js.

(** [changes]: [prices[i] - prices[i-1]] for [i = 1 .. length-1]. *)
Fixpoint changes_of (prices : list N) : list N :=
  match prices with
  | prev :: ((cur :: _) as rest) => (cur - prev)%js :: changes_of rest
  | _ => []
  end.

Definition calculateRSI (prices : list N) (period : Z) : N :=
  if JsArray.len prices <? period + 1 then of_Z 50 else
  let changes := changes_of prices in
  let gains := filter (fun c => ltb (of_Z 0) c = true)
                      (JsArray.slice (- period) changes) in
  let losses := map Math_abs
                    (filter (fun c => ltb c (of_Z 0) = true)
                            (JsArray.slice (- period) changes)) in
  let avgGain := if 0 <? JsArray.len gains
                 then (JsArray.reduce add (of_Z 0) gains / of_Z period)%js
                 else of_Z 0 in
  let avgLoss := if 0 <? JsArray.len losses
                 then (JsArray.reduce add (of_Z 0) losses / of_Z period)%js
                 else of_Z 0 in
  if eqb avgLoss (of_Z 0) then of_Z 100 else
  let rs := (avgGain / avgLoss)%js in
  (of_Z 100 - of_Z 100 / (of_Z 1 + rs))%js.

Definition calculateEMA (prices : list N) (period : Z) : N :=
  match prices with
  | [] => of_Z 0
  | first :: rest =>
      let k := (of_Z 2 / of_Z (period + 1))%js in
      fold_left (fun ema price => (price * k + ema * (of_Z 1 - k))%js)
                rest first
  end.

Record Macd := { value : N; signal : N; histogram : N }.

Definition calculateMACD (prices : list N) : Macd :=
  let ema12 := calculateEMA prices 12 in
  let ema26 := calculateEMA prices 26 in
  let macdLine := (ema12 - ema26)%js in
  {| value := toFixed2 macdLine;
     signal := toFixed2 (macdLine * lit_0_8)%js;
     histogram := toFixed2 (macdLine * lit_0_2)%js |}.

Definition calculateSMA (prices : list N) (period : Z) : N :=
  let period := if JsArray.len prices <? period
                then JsArray.len prices else period in
  let slice := JsArray.slice (- period) prices in
  (JsArray.reduce add (of_Z 0) slice / of_Z (JsArray.len slice))%js.

Record Bands := { upper : N; middle : N; lower : N }.

Definition calculateBollingerBands (prices : list N) (period : Z) : Bands :=
  let sma := calculateSMA prices period in
  let slice := JsArray.slice (- period) prices in
  let variance :=
    (JsArray.reduce (fun sum price => sum + Math_pow2 (price - sma))%js
                    (of_Z 0) slice / of_Z period)%js in
  let stdDev := Math_sqrt variance in
  {| upper := toFixed2 (sma + stdDev * of_Z 2)%js;
     middle := toFixed2 sma;
     lower := toFixed2 (sma - stdDev * of_Z 2)%js |}.

End Indicators.

Arguments Macd : clear implicits.
Arguments Bands : clear implicits.

(** ** binary64 *)

Module Binary64.

Definition of_Z (z : Z) : float :=
  SF2Prim (binary_normalize prec emax z 0 false).

(** [Number(x.toFixed(2))]. [toFixed] takes the integer [n] nearest to
    [|x| * 100] (the larger one on a tie) and prints [n / 100] with the
    sign of [x]; [Number] reads that decimal back as the nearest double.
    From 1e21 on [toFixed] prints [x] itself. *)
Definition toFixed2 (x : float) : float :=
  match Prim2SF x with
  | S754_finite s m e =>
      if PrimFloat.leb (of_Z (10 ^ 21)) (PrimFloat.abs x) then x else
      let n := if 0 <=? e then Z.pos m * 2 ^ e * 100
               else (Z.pos m * 200 + 2 ^ (- e)) / 2 ^ (1 - e) in
      match n with
      | Z.pos p =>
          SF2Prim (SFdiv prec emax (S754_finite s p 0)
                                   (S754_finite false 100 0))
      | _ => if s then PrimFloat.neg_zero else PrimFloat.zero
      end
  | S754_zero _ => PrimFloat.zero
  | _ => x
  end.

End Binary64.

#[export] Instance binary64 : JsNumber float := {|
  of_Z := Binary64.of_Z;
  nan := PrimFloat.nan;
  add := PrimFloat.add;
  sub := PrimFloat.sub;
  mul := PrimFloat.mul;
  div := PrimFloat.div;
  ltb := PrimFloat.ltb;
  eqb := PrimFloat.eqb;
  Math_abs := PrimFloat.abs;
  Math_sqrt := PrimFloat.sqrt;
  toFixed2 := Binary64.toFixed2
|}.

(** ** Exact arithmetic *)

#[global] Instance Rlt_decision (x y : R) : Decision (x < y)%R := Rlt_dec x y.
#[global] Instance Rle_decision (x y : R) : Decision (x <= y)%R := Rle_dec x y.
#[global] Instance Req_decision (x y : R) : Decision (x = y) := Req_dec_T x y.

(** An exact number: NaN, an infinity with its sign, or a real. There is
  one zero; dividing a non-zero real by it gives the infinity of the
  sign of the numerator. *)
Inductive xreal : Type :=
| XNaN
| XInf (negative : bool)
| XFin (r : R).

Module Ideal.

Definition add (x y : xreal) : xreal :=
  match x, y with
  | XNaN, _ | _, XNaN => XNaN
  | XInf s, XInf s' => if Bool.eqb s s' then XInf s else XNaN
  | XInf s, XFin _ | XFin _, XInf s => XInf s
  | XFin a, XFin b => XFin (a + b)
  end.

Definition sub (x y : xreal) : xreal :=
  match x, y with
  | XNaN, _ | _, XNaN => XNaN
  | XInf s, XInf s' => if Bool.eqb s s' then XNaN else XInf s
  | XInf s, XFin _ => XInf s
  | XFin _, XInf s => XInf (negb s)
  | XFin a, XFin b => XFin (a - b)
  end.

Definition mul (x y : xreal) : xreal :=
  match x, y with
  | XNaN, _ | _, XNaN => XNaN
  | XInf s, XInf s' => XInf (xorb s s')
  | XInf s, XFin r | XFin r, XInf s =>
      if bool_decide (r = 0)%R then XNaN
      else XInf (xorb s (bool_decide (r < 0)%R))
  | XFin a, XFin b => XFin (a * b)
  end.

Definition div (x y : xreal) : xreal :=
  match x, y with
  | XNaN, _ | _, XNaN => XNaN
  | XInf _, XInf _ => XNaN
  | XInf s, XFin r => XInf (xorb s (bool_decide (r < 0)%R))
  | XFin _, XInf _ => XFin 0
  | XFin a, XFin b =>
      if bool_decide (b = 0)%R
      then (if bool_decide (a = 0)%R then XNaN
            else XInf (bool_decide (a < 0)%R))
      else XFin (a / b)
  end.

Definition ltb (x y : xreal) : bool :=
  match x, y with
  | XNaN, _ | _, XNaN => false
  | XInf s, XInf s' => s && negb s'
  | XInf s, XFin _ => s
  | XFin _, XInf s => negb s
  | XFin a, XFin b => bool_decide (a < b)%R
  end.

Definition eqb (x y : xreal) : bool :=
  match x, y with
  | XInf s, XInf s' => Bool.eqb s s'
  | XFin a, XFin b => bool_decide (a = b)
  | _, _ => false
  end.

Definition abs (x : xreal) : xreal :=
  match x with
  | XNaN => XNaN
  | XInf _ => XInf false
  | XFin r => XFin (Rabs r)
  end.

Definition sqrt (x : xreal) : xreal :=
  match x with
  | XNaN => XNaN
  | XInf s => if s then XNaN else XInf false
  | XFin r => if bool_decide (r < 0)%R then XNaN else XFin (R_sqrt.sqrt r)
  end.

(** The integer nearest to [r * 100], the larger one on a tie, over 100. *)
Definition round2 (r : R) : R :=
  (IZR (Int_part (r * 100 + / 2)) / 100)%R.

(** [toFixed] rounds the magnitude and keeps the sign; from 1e21 on it
    prints the number itself. *)
Definition toFixed2 (x : xreal) : xreal :=
  match x with
  | XFin r =>
      if bool_decide (IZR (10 ^ 21) <= Rabs r)%R then XFin r
      else if bool_decide (r < 0)%R then XFin (- round2 (- r))
      else XFin (round2 r)
  | _ => x
  end.

End Ideal.

#[export] Instance ideal : JsNumber xreal := {|
  of_Z := fun z => XFin (IZR z);
  nan := XNaN;
  add := Ideal.add;
  sub := Ideal.sub;
  mul := Ideal.mul;
  div := Ideal.div;
  ltb := Ideal.ltb;
  eqb := Ideal.eqb;
  Math_abs := Ideal.abs;
  Math_sqrt := Ideal.sqrt;
  toFixed2 := Ideal.toFixed2
|}.

(** ** The snapshot ([shared/schema.ts]) and the aggregator *)

Section Aggregator.
Context {N : Type} `{JsNumber N}.

Record HistoricalPrice := {
  date : string;
  open : N;
  high : N;
  low : N;
  close : N;
  volume : N
}.

Record MovingAverages := { ma20 : N; ma50 : N; ma200 : N }.

(** [lastUpdated] is a [Date]: milliseconds since the epoch. *)
Record TechnicalIndicators := {
  symbol : string;
  rsi : N;
  macd : Macd N;
  movingAverages : MovingAverages;
  bollingerBands : Bands N;
  lastUpdated : Z
}.

(** [now] is what [new Date()] reads when the snapshot is assembled. *)
Definition calculateTechnicalIndicators
    (now : Z) (prices : list HistoricalPrice) (symbol : string)
    : TechnicalIndicators :=
  let closes := map close prices in
  let volumes := map volume prices in
  {| symbol := symbol;
     rsi := calculateRSI closes 14;
     macd := calculateMACD closes;
     movingAverages :=
       {| ma20 := calculateSMA closes 20;
          ma50 := calculateSMA closes 50;
          ma200 := calculateSMA closes (Z.min 200 (JsArray.len closes)) |};
     bollingerBands := calculateBollingerBands closes 20;
     lastUpdated := now |}.

End Aggregator.

Arguments HistoricalPrice : clear implicits.
Arguments MovingAverages : clear implicits.
Arguments TechnicalIndicators : clear implicits.

(** ** The in-memory store ([storage.ts]) *)

Section Storage.
Context {N : Type}.

(** The two maps of [MemStorage] that the indicator path reads and writes.
    (Its other maps, [users], [stockPrices], [news] and
    [aiRecommendations], are touched by none of the operations below.) *)
Record MemStorage := {
  historicalPrices : gmap string (gmap string (list (HistoricalPrice N)));
  technicalIndicators : gmap string (TechnicalIndicators N)
}.

Definition MemStorage_new : MemStorage :=
  {| historicalPrices := ∅; technicalIndicators := ∅ |}.

Definition getHistoricalPrices (symbol timeframe : string) (st : MemStorage)
    : list (HistoricalPrice N) :=
  match historicalPrices st !! symbol with
  | Some symbolData => default [] (symbolData !! timeframe)
  | None => []
  end.

Definition setHistoricalPrices (symbol timeframe : string)
    (prices : list (HistoricalPrice N)) (st : MemStorage) : MemStorage :=
  let symbolData := default ∅ (historicalPrices st !! symbol) in
  {| historicalPrices :=
       <[symbol := <[timeframe := prices]> symbolData]> (historicalPrices st);
     technicalIndicators := technicalIndicators st |}.

Definition getTechnicalIndicators (symbol : string) (st : MemStorage)
    : option (TechnicalIndicators N) :=
  technicalIndicators st !! symbol.

Definition setTechnicalIndicators (indicators : TechnicalIndicators N)
    (st : MemStorage) : MemStorage :=
  {| historicalPrices := historicalPrices st;
     technicalIndicators :=
       <[indicators.(symbol) := indicators]> (technicalIndicators st) |}.

(** The staleness test the routes write inline:
    [!entry || (Date.now() - entry.lastUpdated.getTime()) > ttl]. *)
Definition isStale (entry : option (TechnicalIndicators N)) (now ttl : Z)
    : bool :=
  match entry with
  | None => true
  | Some indicators => ttl <? now - indicators.(lastUpdated)
  end.

End Storage.

Arguments MemStorage : clear implicits.

(** ** The route [/api/stock/:symbol/technical] ([routes.ts], lines 63-100) *)

(** What a request does besides reading and writing the store. *)
Inductive Event :=
  | Fetched (symbol timeframe : string)   (* stockService.getHistoricalPrices *)
  | Computed (symbol : string).           (* stockService.calculateTechnicalIndicators *)

Section Route.
Context {N : Type} `{JsNumber N}.

Record World := { store : MemStorage N; log : list Event }.

Definition Handler (A : Type) : Type := World -> A * World.

Definition ret {A} (a : A) : Handler A := fun w => (a, w).

Definition bind {A B} (m : Handler A) (k : A -> Handler B) : Handler B :=
  fun w => let (a, w') := m w in k a w'.

Definition reads {A} (f : MemStorage N -> A) : Handler A :=
  fun w => (f (store w), w).

Definition writes (f : MemStorage N -> MemStorage N) : Handler unit :=
  fun w => (tt, {| store := f (store w); log := log w |}).

Definition emit (e : Event) : Handler unit :=
  fun w => (tt, {| store := store w; log := log w ++ [e] |}).

Notation "'let*' x ':=' m 'in' k" := (bind m (fun x => k))
  (at level 10, x name, m at level 100, k at level 200, only parsing).

(** [stockSymbolSchema.parse(req.params.symbol.toUpperCase())]: the symbol,
    or [None] where zod throws (the handler then answers 400). *)
Variable parseSymbol : string -> option string.

(** What [stockService.getHistoricalPrices] answers during this request; it
    answers the empty list when it has no data. *)
Variable upstream : string -> string -> list (HistoricalPrice N).

(** What the clock reads during this request. *)
Variable now : Z.

Definition stockService_getHistoricalPrices (symbol timeframe : string)
    : Handler (list (HistoricalPrice N)) :=
  let* _ := emit (Fetched symbol timeframe) in
  ret (upstream symbol timeframe).

Definition stockService_calculateTechnicalIndicators
    (prices : list (HistoricalPrice N)) (symbol : string)
    : Handler (TechnicalIndicators N) :=
  let* _ := emit (Computed symbol) in
  ret (calculateTechnicalIndicators now prices symbol).

Inductive Response :=
  | Json (body : TechnicalIndicators N)
  | Error (status : Z) (error : string).

Definition technicalRoute (param : string) : Handler Response :=
  match parseSymbol param with
  | None => ret (Error 400 "Invalid stock symbol")
  | Some symbol =>
      let* indicators := reads (getTechnicalIndicators symbol) in
      let isStale := isStale indicators now 300000 in
      let* indicators :=
        if isStale then
          let* historicalPrices := reads (getHistoricalPrices symbol "1M") in
          if JsArray.len historicalPrices =? 0 then
            let* freshPrices := stockService_getHistoricalPrices symbol "1M" in
            if 0 <? JsArray.len freshPrices then
              let* _ := writes (setHistoricalPrices symbol "1M" freshPrices) in
              let* computed :=
                stockService_calculateTechnicalIndicators freshPrices symbol in
              let* _ := writes (setTechnicalIndicators computed) in
              ret (Some computed)
            else ret indicators
          else
            let* computed :=
              stockService_calculateTechnicalIndicators historicalPrices symbol in
            let* _ := writes (setTechnicalIndicators computed) in
            ret (Some computed)
        else ret indicators in
      match indicators with
      | None => ret (Error 404 "Technical indicators not available")
      | Some indicators => ret (Json indicators)
      end
  end.

End Route.

Arguments World : clear implicits.
Arguments Response : clear implicits.

Definition is_Computed (e : Event) : bool :=
  match e with Computed _ => true | Fetched _ _ => false end.

Definition is_Fetched (e : Event) : bool :=
  match e with Fetched _ _ => true | Computed _ => false end.

(** How many times the aggregator ran, and how often upstream was asked. *)
Definition recomputations (l : list Event) : nat :=
  length (List.filter is_Computed l).

Definition fetches (l : list Event) : nat :=
  length (List.filter is_Fetched l).

(** ** The operations under the names the specification gives them *)

(** The two errors the specification lists. *)
Inductive IndicatorError := EmptySeries | InsufficientData.

(** How a call ends: with a value, or with one of the errors thrown. *)
Inductive Outcome (A : Type) :=
  | Returns (a : A)
  | Throws (e : IndicatorError).

Arguments Returns {A} a.
Arguments Throws {A} e.

Section SpecOperations.
Context {N : Type} `{JsNumber N}.

(** [calculateSMA], [calculateEMA], [calculateRSI], [calculateMACD],
    [calculateBollingerBands] and [calculateTechnicalIndicators] hold no
    [throw], and what they call ([map], [slice], [filter], [reduce] with an
    initial value, [toFixed(2)], [Number], [Math.*], arithmetic) throws on
    no array of numbers: a call always ends with the value computed. *)
Definition sma (closes : list N) (period : Z) : Outcome N :=
  Returns (calculateSMA closes period).

Definition ema (closes : list N) (period : Z) : Outcome N :=
  Returns (calculateEMA closes period).

Definition rsi_of (closes : list N) : Outcome N :=
  Returns (calculateRSI closes 14).

Definition macd_of (closes : list N) : Outcome (Macd N) :=
  Returns (calculateMACD closes).

Definition bollingerBands_of (closes : list N) : Outcome (Bands N) :=
  Returns (calculateBollingerBands closes 20).

Definition computeIndicators (now : Z) (symbol : string)
    (bars : list (HistoricalPrice N)) : Outcome (TechnicalIndicators N) :=
  Returns (calculateTechnicalIndicators now bars symbol).

(** The recurrence in the specification's words: [ema_0 = close_0] and
    [ema_i = close_i * k + ema_(i-1) * (1 - k)] with [k = 2 / (p + 1)].
    Reading past the end of an array gives [undefined], which is NaN in
    arithmetic. *)
Fixpoint ema_at (closes : list N) (p : Z) (i : nat) : N :=
  let k := (of_Z 2 / of_Z (p + 1))%js in
  match i with
  | O => nth 0 closes nan
  | S j => (nth i closes nan * k + ema_at closes p j * (of_Z 1 - k))%js
  end.

(** The closes of a window are all the same: it has no variance. *)
Definition zero_variance (window : list N) : Prop :=
  forall x y, x ∈ window -> y ∈ window -> x = y.

End SpecOperations.

(** A bar that closes at [c]. *)
Definition bar {N} (c : N) : HistoricalPrice N :=
  {| date := ""; open := c; high := c; low := c; close := c; volume := c |}.

(** ** Exact arithmetic: reading a number as a real *)

Definition finite (x : xreal) : Prop :=
  match x with XFin _ => True | _ => False end.

(** [Number(r.toFixed(2))] on a real. *)
Definition fix2 (r : R) : R :=
  if bool_decide (IZR (10 ^ 21) <= Rabs r)%R then r
  else if bool_decide (r < 0)%R then (- Ideal.round2 (- r))%R
  else Ideal.round2 r.

(** The sum of a list of reals. *)
Definition Rsum (rs : list R) : R := fold_right Rplus 0%R rs.

(** ** Series, snapshots and worlds the statements below speak of *)

Definition nonneg (x : xreal) : Prop :=
  match x with XFin r => (0 <= r)%R | _ => False end.

(** A number in the closed interval from 0 to 100. *)
Definition within_0_100 (x : xreal) : Prop :=
  match x with XFin r => (0 <= r <= 100)%R | _ => False end.

(** The mean of a window, and the variance [calculateBollingerBands] takes
    of it: the squared deviations from [m], summed and divided by the
    period. *)
Definition mean (w : list R) : R := (Rsum w / IZR (JsArray.len w))%R.

Definition squared_deviations (w : list R) (m : R) : R :=
  Rsum (map (fun x => (x - m) * (x - m))%R w).

Definition variance_over (w : list R) (m : R) (period : Z) : R :=
  (squared_deviations w m / IZR period)%R.

(** Two doubles that differ: compare what they denote. *)
Ltac floats_differ H :=
  apply (f_equal Prim2SF) in H; vm_compute in H; discriminate H.

(** Twenty closes: 100.01 and then nineteen times 100. *)
Definition nearly_flat {N} `{JsNumber N} : list N :=
  (of_Z 10001 / of_Z 100)%js :: repeat (of_Z 100) 19.

Definition bands_100 {N} `{JsNumber N} : Bands N :=
  {| upper := of_Z 100; middle := of_Z 100; lower := of_Z 100 |}.

(** [calculateEMA] on reals: the same fold, on reals. *)
Definition ema_step (period : Z) (e x : R) : R :=
  (x * (2 / IZR (period + 1)) + e * (1 - 2 / IZR (period + 1)))%R.

(** The result of [calculateEMA] at period [p] depends on more than the
    trailing [p] closes: two finite series agree on those and differ in
    their EMA. *)
Definition history_matters (p : Z) : Prop :=
  exists s1 s2 : list xreal,
    Forall finite s1 /\ Forall finite s2
    /\ JsArray.slice (- p) s1 = JsArray.slice (- p) s2
    /\ calculateEMA s1 p <> calculateEMA s2 p.

(** Thirty bars that all close at 100. *)
Definition flat_bars {N} `{JsNumber N} : list (HistoricalPrice N) :=
  repeat (bar (of_Z 100)) 30.

Definition bands_nan {N} `{JsNumber N} : Bands N :=
  {| upper := nan; middle := nan; lower := nan |}.

Definition macd_zero {N} `{JsNumber N} : Macd N :=
  {| value := of_Z 0; signal := of_Z 0; histogram := of_Z 0 |}.

(** The snapshot of no bars at all. *)
Definition empty_snapshot {N} `{JsNumber N} (now : Z) (sym : string)
    : TechnicalIndicators N :=
  {| symbol := sym;
     rsi := of_Z 50;
     macd := macd_zero;
     movingAverages := {| ma20 := nan; ma50 := nan; ma200 := nan |};
     bollingerBands := bands_nan;
     lastUpdated := now |}.

(** The events a request added to the log. *)
Definition new_events {N} (before after : World N) : list Event :=
  drop (length (log before)) (log after).

(** A store that holds, for TCS, a snapshot stamped at time 0 and no
    history. *)
Definition stale_world : World float :=
  {| store := setTechnicalIndicators (empty_snapshot 0 "TCS") MemStorage_new;
     log := [] |}.

Definition no_data : string -> string -> list (HistoricalPrice float) :=
  fun _ _ => [].

Definition one_bar : string -> string -> list (HistoricalPrice float) :=
  fun _ _ => [bar (of_Z 100)].

(** * The rest of the server code *)

(** ** More of [Math] *)

(** [Math.max], [Math.min] and [Math.floor], which the generator of
    historical data uses. *)
Class JsMath (N : Type) := {
  Math_max : N -> N -> N;
  Math_min : N -> N -> N;
  Math_floor : N -> N
}.

Module Binary64Math.

(** Either argument NaN gives NaN; of two zeros the positive one is the
    larger. *)
Definition max (x y : float) : float :=
  if PrimFloat.is_nan x || PrimFloat.is_nan y then PrimFloat.nan
  else if PrimFloat.ltb x y then y
  else if PrimFloat.ltb y x then x
  else if PrimFloat.is_zero x then PrimFloat.add x y
  else x.

Definition min (x y : float) : float :=
  PrimFloat.opp (max (PrimFloat.opp x) (PrimFloat.opp y)).

(** The largest integer at or below [x]; a double whose exponent is not
    negative is an integer already. *)
Definition floor (x : float) : float :=
  match Prim2SF x with
  | S754_finite s m e =>
      if 0 <=? e then x
      else
        let n := (if s then Z.neg m else Z.pos m) / 2 ^ (- e) in
        if n =? 0 then PrimFloat.zero else Binary64.of_Z n
  | _ => x
  end.

End Binary64Math.

#[export] Instance binary64_math : JsMath float := {|
  Math_max := Binary64Math.max;
  Math_min := Binary64Math.min;
  Math_floor := Binary64Math.floor
|}.

Module IdealMath.

Definition max (x y : xreal) : xreal :=
  match x, y with
  | XNaN, _ | _, XNaN => XNaN
  | _, _ => if Ideal.ltb x y then y else x
  end.

Definition min (x y : xreal) : xreal :=
  match x, y with
  | XNaN, _ | _, XNaN => XNaN
  | _, _ => if Ideal.ltb y x then y else x
  end.

Definition floor (x : xreal) : xreal :=
  match x with
  | XFin r => XFin (IZR (Int_part r))
  | _ => x
  end.

End IdealMath.

#[export] Instance ideal_math : JsMath xreal := {|
  Math_max := IdealMath.max;
  Math_min := IdealMath.min;
  Math_floor := IdealMath.floor
|}.

(** ** The schema of a stock symbol ([shared/schema.ts], line 200) *)

(** The strings of this development are ASCII. Of the class [\s] of the
    regular expression they hold tab, line feed, vertical tab, form feed,
    carriage return and space. *)
Definition symbol_char (c : Ascii.ascii) : bool :=
  let n := Ascii.nat_of_ascii c in
  ((65 <=? n) && (n <=? 90))%nat          (* A-Z *)
  || ((48 <=? n) && (n <=? 57))%nat       (* 0-9 *)
  || ((9 <=? n) && (n <=? 13))%nat        (* \s *)
  || (n =? 32)%nat
  || (n =? 46)%nat                        (* \. *)
  || (n =? 45)%nat.                       (* \- *)

(** [stockSymbolSchema.parse]:
    [z.string().min(1).max(20).regex(/^[A-Z0-9\s\.\-]+$/)]; [None] where zod
    throws. *)
Definition stockSymbolSchema_parse (s : string) : option string :=
  if ((1 <=? String.length s) && (String.length s <=? 20))%nat
     && forallb symbol_char (String.list_ascii_of_string s)
  then Some s else None.

(** [s.toUpperCase()], on ASCII. *)
Definition upper_char (c : Ascii.ascii) : Ascii.ascii :=
  let n := Ascii.nat_of_ascii c in
  if ((97 <=? n) && (n <=? 122))%nat then Ascii.ascii_of_nat (n - 32) else c.

Fixpoint toUpperCase (s : string) : string :=
  match s with
  | EmptyString => EmptyString
  | String c rest => String (upper_char c) (toUpperCase rest)
  end.

(** [stockSymbolSchema.parse(req.params.symbol.toUpperCase())], as the
    routes write it. *)
Definition symbolParam_parse (param : string) : option string :=
  stockSymbolSchema_parse (toUpperCase param).

(** ** How a call ends that can throw a [TypeError] *)

Inductive Completion (A : Type) :=
  | Normal (a : A)
  | TypeError.

Arguments Normal {A} a.
Arguments TypeError {A}.

(** ** Generated history ([stockService.ts], lines 145-168 and 237-290) *)

Section Generator.
Context {N : Type} `{JsNumber N} `{JsMath N}.

Definition getTimeframeDays (timeframe : string) : Z :=
  if String.eqb timeframe "1D" then 1
  else if String.eqb timeframe "1W" then 7
  else if String.eqb timeframe "1M" then 30
  else if String.eqb timeframe "3M" then 90
  else if String.eqb timeframe "6M" then 180
  else if String.eqb timeframe "1Y" then 365
  else 30.

(** The table [basePrices] of [getIndianBasePrice]. *)
Definition basePrices : list (string * Z) :=
  [("RELIANCE", 2850); ("TCS", 4200); ("INFY", 1750); ("HDFCBANK", 1680);
   ("ICICIBANK", 1200); ("HINDUNILVR", 2400); ("ITC", 480); ("SBIN", 850);
   ("BHARTIARTL", 1550); ("LT", 3600)].

Fixpoint table_get (table : list (string * Z)) (key : string) : option Z :=
  match table with
  | [] => None
  | (k, v) :: rest => if String.eqb key k then Some v else table_get rest key
  end.

(** The names every object inherits from [Object.prototype]. Indexing the
    object literal [basePrices] with one of them finds what is inherited: a
    function (for [__proto__], the prototype itself), not a number. *)
Definition Object_prototype : list string :=
  ["constructor"; "__defineGetter__"; "__defineSetter__"; "hasOwnProperty";
   "__lookupGetter__"; "__lookupSetter__"; "isPrototypeOf";
   "propertyIsEnumerable"; "toString"; "valueOf"; "__proto__";
   "toLocaleString"].

(** [basePrices[symbol] || 1500]: the price of the table; for a name of
    [Object.prototype] the inherited function or object, which is truthy
    and no number ([None] here); 1500 for every other symbol, since no
    price of the table is 0. *)
Definition getIndianBasePrice (symbol : string) : option N :=
  match table_get basePrices symbol with
  | Some price => Some (of_Z price)
  | None =>
      if bool_decide (symbol ∈ Object_prototype) then None
      else Some (of_Z 1500)
  end.

(** [random k] is what the [k]-th call of [Math.random()] returns, and
    [isoDate i] the day [i] days before today as
    [date.toISOString().split('T')[0]] prints it. *)
Variable random : nat -> N.
Variable isoDate : Z -> string.

(** The literals [0.5] and [0.02]. *)
Definition lit_0_5 : N := (of_Z 5 / of_Z 10)%js.
Definition lit_0_02 : N := (of_Z 2 / of_Z 100)%js.

(** The loop [for (let i = days; i >= 0; i--)]: [steps] iterations are
    left, [basePrice] is the loop's variable and [drawn] counts the calls
    of [Math.random()] made so far (four in each iteration). *)
Fixpoint generate_from (steps : nat) (i : Z) (basePrice : N) (drawn : nat)
    : list (HistoricalPrice N) :=
  match steps with
  | O => []
  | S steps' =>
      let volatility := lit_0_02 in
      let change := ((random drawn - lit_0_5) * volatility * basePrice)%js in
      let open := basePrice in
      let close := (basePrice + change)%js in
      let high :=
        (Math_max open close + random (drawn + 1) * of_Z 2)%js in
      let low :=
        (Math_min open close - random (drawn + 2) * of_Z 2)%js in
      let volume :=
        (Math_floor (random (drawn + 3) * of_Z 50000000)
         + of_Z 20000000)%js in
      {| date := isoDate i;
         open := toFixed2 open;
         high := toFixed2 high;
         low := toFixed2 low;
         close := toFixed2 close;
         volume := volume |}
      :: generate_from steps' (i - 1) close (drawn + 4)
  end.

(** With a base price that is a number the loop runs [days + 1] times and
    the bars are returned. With an inherited function or object for a base
    price, the first iteration stops at [open.toFixed(2)]: there is no
    such method, a [TypeError] is thrown, and nothing in the function
    catches it. *)
Definition generateRealisticHistoricalData (symbol timeframe : string)
    : Completion (list (HistoricalPrice N)) :=
  let days := getTimeframeDays timeframe in
  match getIndianBasePrice symbol with
  | Some basePrice =>
      Normal (generate_from (Z.to_nat (days + 1)) days basePrice 0)
  | None => TypeError
  end.

(** What [fetchYahooHistoricalData] answers: the parsed bars, or the empty
    list when the request or the parse fails. *)
Variable yahoo : string -> string -> list (HistoricalPrice N).

(** [StockService.getHistoricalPrices]: Yahoo's bars if there are any;
    [fetchIndianHistoricalData] always answers the empty list; so otherwise
    the generated bars. When the generator throws inside the [try], the
    [catch] calls it again, and the second [TypeError] leaves the method. *)
Definition StockService_getHistoricalPrices (symbol timeframe : string)
    : Completion (list (HistoricalPrice N)) :=
  let realHistoricalData := yahoo symbol timeframe in
  if 0 <? JsArray.len realHistoricalData then Normal realHistoricalData
  else
    let indianHistoricalData : list (HistoricalPrice N) := [] in
    if 0 <? JsArray.len indianHistoricalData then Normal indianHistoricalData
    else
      match generateRealisticHistoricalData symbol timeframe with
      | Normal generated => Normal generated
      | TypeError => generateRealisticHistoricalData symbol timeframe
      end.

End Generator.

(** ** The route [/api/stock/:symbol/history/:timeframe]
    ([routes.ts], lines 40-61) *)

(** [timeframeSchema.parse]: [z.enum] accepts exactly its six strings. *)
Definition timeframeSchema_parse (s : string) : option string :=
  if bool_decide (s ∈ ["1D"; "1W"; "1M"; "3M"; "6M"; "1Y"])
  then Some s else None.

Inductive HistoryResponse (N : Type) :=
  | HistoryJson (body : list (HistoricalPrice N))
  | HistoryError (status : Z) (error : string).

Arguments HistoryJson {N} body.
Arguments HistoryError {N} status error.

Section HistoryRoute.
Context {N : Type}.

Notation "'let*' x ':=' m 'in' k" := (bind m (fun x => k))
  (at level 10, x name, m at level 100, k at level 200, only parsing).

Variable parseSymbol : string -> option string.
Variable upstream : string -> string -> list (HistoricalPrice N).

Definition historyRoute (symbolParam timeframeParam : string)
    : Handler (N:=N) (HistoryResponse N) :=
  match parseSymbol symbolParam with
  | None => ret (HistoryError 400 "Invalid parameters")
  | Some symbol =>
      match timeframeSchema_parse timeframeParam with
      | None => ret (HistoryError 400 "Invalid parameters")
      | Some timeframe =>
          let* historicalPrices :=
            reads (getHistoricalPrices symbol timeframe) in
          let* historicalPrices :=
            if JsArray.len historicalPrices =? 0 then
              let* historicalPrices :=
                stockService_getHistoricalPrices upstream symbol timeframe in
              let* _ :=
                if 0 <? JsArray.len historicalPrices
                then writes (setHistoricalPrices symbol timeframe
                               historicalPrices)
                else ret tt in
              ret historicalPrices
            else ret historicalPrices in
          ret (HistoryJson historicalPrices)
      end
  end.

End HistoryRoute.

(** ** Quotes: the map [stockPrices] of [MemStorage] and the route
    [/api/stock/:symbol] ([storage.ts], lines 67-73; [routes.ts],
    lines 10-38) *)

Module Quote.

Record StockPrice (N : Type) := {
  symbol : string;
  price : N;
  change : N;
  changePercent : N;
  volume : N;
  marketCap : N;
  high52w : N;
  low52w : N;
  previousClose : N;
  openPrice : N;
  lastUpdated : Z
}.

Arguments symbol {N} s.
Arguments price {N} s.
Arguments change {N} s.
Arguments changePercent {N} s.
Arguments volume {N} s.
Arguments marketCap {N} s.
Arguments high52w {N} s.
Arguments low52w {N} s.
Arguments previousClose {N} s.
Arguments openPrice {N} s.
Arguments lastUpdated {N} s.

Section Store.
Context {N : Type}.

(** The map [stockPrices], and how often [stockService.getCurrentPrice]
    was called. *)
Record World := { stockPrices : gmap string (StockPrice N); fetched : nat }.

Definition getStockPrice (sym : string) (w : World)
    : option (StockPrice N) :=
  stockPrices w !! sym.

Definition setStockPrice (stockPrice : StockPrice N) (w : World) : World :=
  {| stockPrices := <[symbol stockPrice := stockPrice]> (stockPrices w);
     fetched := fetched w |}.

Inductive Response :=
  | Json (body : StockPrice N)
  | Error (status : Z) (error : string).

Variable parseSymbol : string -> option string.

(** What [stockService.getCurrentPrice] answers during this request:
    a quote, or [null]. *)
Variable getCurrentPrice : string -> option (StockPrice N).

(** What the clock reads during this request. *)
Variable now : Z.

Definition priceRoute (param : string) (w : World) : Response * World :=
  match parseSymbol param with
  | None => (Error 400 "Invalid stock symbol", w)
  | Some sym =>
      let stockPrice := getStockPrice sym w in
      let isStale :=
        match stockPrice with
        | None => true
        | Some p => 60000 <? now - lastUpdated p
        end in
      let '(stockPrice, w) :=
        if isStale then
          let freshData := getCurrentPrice sym in
          let w := {| stockPrices := stockPrices w;
                      fetched := S (fetched w) |} in
          match freshData with
          | Some freshData => (Some freshData, setStockPrice freshData w)
          | None => (stockPrice, w)
          end
        else (stockPrice, w) in
      match stockPrice with
      | None => (Error 404 "Stock not found", w)
      | Some stockPrice => (Json stockPrice, w)
      end
  end.

End Store.

Arguments World : clear implicits.
Arguments Response : clear implicits.

End Quote.

(** ** The fallback recommendation ([aiService.ts], lines 152-199) *)

Module Advice.

Inductive Recommendation := BUY | SELL | HOLD.
Inductive RiskLevel := Low | Medium | High.
Inductive TimeHorizon := Short | MediumTerm | Long.

Record AIRecommendation (N : Type) := {
  symbol : string;
  recommendation : Recommendation;
  confidence : N;
  riskLevel : RiskLevel;
  timeHorizon : TimeHorizon;
  reasoning : list string;
  targetPrice : option N;
  currentPrice : N;
  generatedAt : Z
}.

Arguments symbol {N} a.
Arguments recommendation {N} a.
Arguments confidence {N} a.
Arguments riskLevel {N} a.
Arguments timeHorizon {N} a.
Arguments reasoning {N} a.
Arguments targetPrice {N} a.
Arguments currentPrice {N} a.
Arguments generatedAt {N} a.

Section Fallback.
Context {N : Type} `{JsNumber N}.

(** [now] is what [new Date()] reads. *)
Definition generateFallbackRecommendation (now : Z) (sym : string)
    (stockPrice : Quote.StockPrice N)
    (technicalIndicators : TechnicalIndicators N) : AIRecommendation N :=
  let rsi := technicalIndicators.(rsi) in
  let macd := technicalIndicators.(macd) in
  let movingAverages := technicalIndicators.(movingAverages) in
  let price := Quote.price stockPrice in
  let changePercent := Quote.changePercent stockPrice in
  let '(recommendation, confidence, reasoning) :=
    if ltb rsi (of_Z 30) && ltb macd.(signal) macd.(value)
       && ltb movingAverages.(ma20) price
    then (BUY, of_Z 75,
          ["RSI indicates oversold conditions";
           "MACD showing bullish crossover";
           "Price above 20-day moving average"])
    else if ltb (of_Z 70) rsi && ltb macd.(value) macd.(signal)
            && ltb changePercent (of_Z (-2))
    then (SELL, of_Z 70,
          ["RSI indicates overbought conditions";
           "MACD showing bearish crossover";
           "Significant price decline"])
    else (HOLD, of_Z 50,
          ["Mixed technical signals";
           "Market conditions uncertain";
           "Recommend waiting for clearer trend"]) in
  {| symbol := sym;
     recommendation := recommendation;
     confidence := confidence;
     riskLevel := if ltb (of_Z 70) confidence then Medium else High;
     timeHorizon := Short;
     reasoning := reasoning;
     targetPrice := None;
     currentPrice := price;
     generatedAt := now |}.

End Fallback.

End Advice.

(** The array a call returned; none when it threw. *)
Definition bars_of {A} (c : Completion (list A)) : list A :=
  match c with
  | Normal bars => bars
  | TypeError => []
  end.

(** ** Invariants of the store *)

(** No history in the store is empty. *)
Definition histories_nonempty {N} (st : MemStorage N) : Prop :=
  forall sym symbolData tf prices,
    historicalPrices st !! sym = Some symbolData ->
    symbolData !! tf = Some prices ->
    prices <> [].

(** Every snapshot is stored under its own symbol. *)
Definition keyed_by_symbol {N} (st : MemStorage N) : Prop :=
  forall k v, getTechnicalIndicators k st = Some v -> v.(symbol) = k.

(** Two snapshots that differ at most in [lastUpdated]. *)
Definition same_indicators {N} (a b : TechnicalIndicators N) : Prop :=
  a.(symbol) = b.(symbol) /\ a.(rsi) = b.(rsi) /\ a.(macd) = b.(macd)
  /\ a.(movingAverages) = b.(movingAverages)
  /\ a.(bollingerBands) = b.(bollingerBands).

(** ** Requests served one after another *)

(** A request to the technical route or to the history route, with what
    the clock reads and what [stockService.getHistoricalPrices] answers
    while it is served. *)
Inductive Request (N : Type) :=
  | GetTechnical (now : Z)
      (upstream : string -> string -> list (HistoricalPrice N))
      (param : string)
  | GetHistory
      (upstream : string -> string -> list (HistoricalPrice N))
      (symbolParam timeframeParam : string).

Arguments GetTechnical {N} now upstream param.
Arguments GetHistory {N} upstream symbolParam timeframeParam.

Inductive Answer (N : Type) :=
  | TechnicalAnswer (response : Response N)
  | HistoryAnswer (response : HistoryResponse N).

Arguments TechnicalAnswer {N} response.
Arguments HistoryAnswer {N} response.

Section Server.
Context {N : Type} `{JsNumber N}.
Variable parseSymbol : string -> option string.

Definition serve (request : Request N) (w : World N) : Answer N * World N :=
  match request with
  | GetTechnical now upstream param =>
      let (response, w') := technicalRoute parseSymbol upstream now param w in
      (TechnicalAnswer response, w')
  | GetHistory upstream symbolParam timeframeParam =>
      let (response, w') :=
        historyRoute parseSymbol upstream symbolParam timeframeParam w in
      (HistoryAnswer response, w')
  end.

(** The handlers run to their end one after another, in the order of the
    list. *)
Fixpoint serve_all (requests : list (Request N)) (w : World N)
    : list (Answer N) * World N :=
  match requests with
  | [] => ([], w)
  | request :: rest =>
      let (answer, w') := serve request w in
      let (answers, w'') := serve_all rest w' in
      (answer :: answers, w'')
  end.

(** What a request about [sym] is answered while the one-month history
    [bars] is cached for it: the technical route answers a snapshot with
    the indicators of [bars], the history route answers [bars]. *)
Definition answered_from (sym : string) (bars : list (HistoricalPrice N))
    (request : Request N) (answer : Answer N) : Prop :=
  match request, answer with
  | GetTechnical _ _ param, TechnicalAnswer response =>
      parseSymbol param = Some sym ->
      exists snap,
        response = Json snap
        /\ same_indicators snap (calculateTechnicalIndicators 0 bars sym)
  | GetHistory _ symbolParam timeframeParam, HistoryAnswer response =>
      parseSymbol symbolParam = Some sym -> timeframeParam = "1M" ->
      response = HistoryJson bars
  | _, _ => False
  end.

(** The one-month history [bars] is cached for [sym], and the snapshot
    cached for [sym], if there is one, has the indicators of [bars]. *)
Definition frozen (sym : string) (bars : list (HistoricalPrice N))
    (st : MemStorage N) : Prop :=
  getHistoricalPrices sym "1M" st = bars
  /\ forall snap,
       getTechnicalIndicators sym st = Some snap ->
       same_indicators snap (calculateTechnicalIndicators 0 bars sym).

End Server.

(** ** Generated bars, in exact arithmetic *)

(** Every call of [Math.random()] answers a real in [0, 1). *)
Definition draws_in_unit_interval (random : nat -> xreal) : Prop :=
  forall k, exists r, random k = XFin r /\ (0 <= r < 1)%R.

(** A bar whose low is at or below its open and its close, whose high is at
    or above them, and whose volume is a whole number from 20000000 up to,
    but not including, 70000000. *)
Definition well_formed_bar (b : HistoricalPrice xreal) : Prop :=
  exists (lo o c hi : R) (v : Z),
    b.(low) = XFin lo /\ b.(open) = XFin o /\ b.(close) = XFin c
    /\ b.(high) = XFin hi /\ b.(volume) = XFin (IZR v)
    /\ (lo <= o <= hi)%R /\ (lo <= c <= hi)%R
    /\ 20000000 <= v < 70000000.

(** ** Series of reals *)

(** The day-over-day changes of a series of reals, as [changes_of] takes
    them. *)
Fixpoint Rchanges (rs : list R) : list R :=
  match rs with
  | prev :: ((cur :: _) as rest) => (cur - prev)%R :: Rchanges rest
  | _ => []
  end.


(** Sixteen closes: a fall from 200 to 0, then fourteen rises of 1. *)
Definition fall_then_rise : list R :=
  [200; 0; 1; 2; 3; 4; 5; 6; 7; 8; 9; 10; 11; 12; 13; 14]%R.

(** A quote of 14 that lost 3 percent on the day. *)
Definition falling_quote : Quote.StockPrice xreal :=
  {| Quote.symbol := "TCS"; Quote.price := XFin 14;
     Quote.change := XFin (-1); Quote.changePercent := XFin (-3);
     Quote.volume := XFin 0; Quote.marketCap := XFin 0;
     Quote.high52w := XFin 200; Quote.low52w := XFin 0;
     Quote.previousClose := XFin 15; Quote.openPrice := XFin 15;
     Quote.lastUpdated := 0 |}.

(** A quote of 100 for [sym], stamped [t]. *)
Definition quote_at (sym : string) (t : Z) : Quote.StockPrice float :=
  {| Quote.symbol := sym; Quote.price := of_Z 100;
     Quote.change := of_Z 0; Quote.changePercent := of_Z 0;
     Quote.volume := of_Z 0; Quote.marketCap := of_Z 0;
     Quote.high52w := of_Z 0; Quote.low52w := of_Z 0;
     Quote.previousClose := of_Z 100; Quote.openPrice := of_Z 100;
     Quote.lastUpdated := t |}.

(** No quote cached, the service never asked. *)
Definition no_quotes : Quote.World float :=
  {| Quote.stockPrices := ∅; Quote.fetched := 0 |}.

(** * Properties *)

(** ** Arrays *)

Lemma slice_negative_drop {A} (p : Z) (xs : list A) :
  0 < p -> JsArray.slice (- p) xs = drop (length xs - Z.to_nat p) xs.
Proof.
  intros Hp. unfold JsArray.slice.
  replace (- p <? 0) with true by (symmetry; apply Z.ltb_lt; lia).
  f_equal. lia.
Qed.

(** The window [calculateSMA] averages is the window
    [calculateBollingerBands] takes the variance of. *)
Lemma sma_window_is_band_window {A} (p : Z) (xs : list A) :
  0 < p ->
  JsArray.slice (- (if JsArray.len xs <? p then JsArray.len xs else p)) xs
  = JsArray.slice (- p) xs.
Proof.
  intros Hp. unfold JsArray.len.
  destruct (Z.ltb_spec (Z.of_nat (length xs)) p) as [Hlt|Hge].
  - destruct xs as [|x xs].
    { unfold JsArray.slice. rewrite !drop_nil. reflexivity. }
    rewrite !slice_negative_drop by (simpl length; lia).
    f_equal. lia.
  - reflexivity.
Qed.

Lemma slice_window_nonempty {A} (p : Z) (xs : list A) :
  0 < p -> xs <> [] -> JsArray.slice (- p) xs <> [].
Proof.
  intros Hp Hne. rewrite slice_negative_drop by lia.
  destruct xs as [|x xs]; [congruence|].
  intros Hd. apply (f_equal length) in Hd.
  rewrite length_drop in Hd. simpl in Hd. lia.
Qed.

(** ** The recurrence of [calculateEMA] *)

Section EmaFold.
Context {N : Type} `{JsNumber N}.

Lemma ema_at_app (closes more : list N) (p : Z) (i : nat) :
  (i < length closes)%nat ->
  ema_at (closes ++ more) p i = ema_at closes p i.
Proof.
  induction i as [|i IH]; intros Hi; simpl.
  - destruct closes; [simpl in Hi; lia | reflexivity].
  - rewrite IH by lia.
    rewrite (app_nth1 closes more nan Hi). reflexivity.
Qed.

Lemma ema_fold_snoc (first : N) (rest : list N) (p : Z) :
  fold_left
    (fun ema price =>
       (price * (of_Z 2 / of_Z (p + 1)) +
        ema * (of_Z 1 - of_Z 2 / of_Z (p + 1)))%js)
    rest first
  = ema_at (first :: rest) p (length rest).
Proof.
  induction rest as [|x rest IH] using rev_ind.
  - reflexivity.
  - rewrite fold_left_app. simpl fold_left. rewrite IH.
    rewrite length_app. simpl length.
    replace (length rest + 1)%nat with (S (length rest)) by lia.
    simpl ema_at.
    change (first :: rest ++ [x]) with ((first :: rest) ++ [x]).
    rewrite ema_at_app by (simpl; lia).
    rewrite app_nth2 by lia.
    rewrite Nat.sub_diag. reflexivity.
Qed.

Lemma calculateEMA_is_recurrence (closes : list N) (p : Z) :
  closes <> [] ->
  calculateEMA closes p = ema_at closes p (length closes - 1).
Proof.
  destruct closes as [|first rest]; [congruence|]. intros _.
  unfold calculateEMA. rewrite ema_fold_snoc.
  replace (length (first :: rest) - 1)%nat with (length rest)
    by (simpl; lia).
  reflexivity.
Qed.

End EmaFold.

(** ** Rounding to two decimals, on reals *)

Local Open Scope R_scope.

Lemma Int_part_bounds (r : R) : IZR (Int_part r) <= r < IZR (Int_part r) + 1.
Proof. destruct (base_Int_part r) as [Hle Hgt]. lra. Qed.

Lemma Int_part_unique (r : R) (z : Z) :
  IZR z <= r < IZR z + 1 -> Int_part r = z.
Proof. intros [Hle Hlt]. symmetry. apply Int_part_spec. lra. Qed.

Lemma Int_part_mono (a b : R) : a <= b -> (Int_part a <= Int_part b)%Z.
Proof.
  intros Hab.
  pose proof (Int_part_bounds a) as [Ha _].
  pose proof (Int_part_bounds b) as [_ Hb].
  assert (Hlt : IZR (Int_part a) < IZR (Int_part b + 1)).
  { rewrite plus_IZR. lra. }
  apply lt_IZR in Hlt. lia.
Qed.

Lemma round2_mono (a b : R) : a <= b -> Ideal.round2 a <= Ideal.round2 b.
Proof.
  intros Hab. unfold Ideal.round2.
  assert (Hz : (Int_part (a * 100 + / 2) <= Int_part (b * 100 + / 2))%Z)
    by (apply Int_part_mono; lra).
  apply IZR_le in Hz. lra.
Qed.

Lemma round2_error (r : R) :
  r - 5 / 1000 < Ideal.round2 r <= r + 5 / 1000.
Proof.
  unfold Ideal.round2.
  pose proof (Int_part_bounds (r * 100 + / 2)). lra.
Qed.

Lemma round2_of_hundredths (z : Z) : Ideal.round2 (IZR z / 100) = IZR z / 100.
Proof.
  unfold Ideal.round2. rewrite (Int_part_unique _ z); [reflexivity|]. lra.
Qed.

Lemma round2_nonneg (r : R) : 0 <= r -> 0 <= Ideal.round2 r.
Proof.
  intros Hr. replace 0 with (IZR 0 / 100) by lra.
  rewrite <- (round2_of_hundredths 0). apply round2_mono. lra.
Qed.

(** Below 1e21 the rounded value stays at or below 1e21. *)
Lemma round2_below_threshold (r : R) :
  r < IZR (10 ^ 21) -> Ideal.round2 r <= IZR (10 ^ 21).
Proof.
  intros Hr. unfold Ideal.round2.
  pose proof (Int_part_bounds (r * 100 + / 2)) as [Hle _].
  assert (Hz : IZR (Int_part (r * 100 + / 2)) < IZR (10 ^ 23 + 1)).
  { rewrite plus_IZR.
    replace (IZR (10 ^ 23)) with (IZR (10 ^ 21) * 100)
      by (rewrite <- mult_IZR; f_equal).
    lra. }
  apply lt_IZR in Hz.
  assert (Hz' : (Int_part (r * 100 + / 2) <= 10 ^ 23)%Z) by lia.
  apply IZR_le in Hz'.
  replace (IZR (10 ^ 23)) with (IZR (10 ^ 21) * 100) in Hz'
    by (rewrite <- mult_IZR; f_equal).
  lra.
Qed.

Lemma threshold_positive : 0 < IZR (10 ^ 21).
Proof. apply IZR_lt. reflexivity. Qed.

Lemma toFixed2_fin (r : R) : toFixed2 (XFin r) = XFin (fix2 r).
Proof.
  unfold fix2. simpl. repeat case_bool_decide; reflexivity.
Qed.

Lemma fix2_error (r : R) : Rabs (fix2 r - r) <= 5 / 1000.
Proof.
  unfold fix2. repeat case_bool_decide.
  - replace (r - r) with 0 by lra. rewrite Rabs_R0. lra.
  - pose proof (round2_error (- r)). apply Rabs_le. lra.
  - pose proof (round2_error r). apply Rabs_le. lra.
Qed.

Lemma fix2_mono (a b : R) : a <= b -> fix2 a <= fix2 b.
Proof.
  intros Hab. pose proof threshold_positive as HT.
  unfold fix2.
  destruct (Rle_lt_dec (IZR (10 ^ 21)) (Rabs a)) as [Ha|Ha];
  destruct (Rle_lt_dec (IZR (10 ^ 21)) (Rabs b)) as [Hb|Hb].
  - rewrite !bool_decide_eq_true_2 by assumption. exact Hab.
  - rewrite bool_decide_eq_true_2 by assumption.
    rewrite (bool_decide_eq_false_2 (_ <= Rabs b)) by lra.
    assert (Hneg : a <= - IZR (10 ^ 21)).
    { apply Rabs_def2 in Hb. unfold Rabs in Ha.
      destruct (Rcase_abs a); lra. }
    apply Rabs_def2 in Hb.
    case_bool_decide.
    + pose proof (round2_below_threshold (- b)). lra.
    + pose proof (round2_nonneg b). lra.
  - rewrite (bool_decide_eq_false_2 (_ <= Rabs a)) by lra.
    rewrite (bool_decide_eq_true_2 (_ <= Rabs b)) by assumption.
    assert (Hpos : IZR (10 ^ 21) <= b).
    { apply Rabs_def2 in Ha. unfold Rabs in Hb.
      destruct (Rcase_abs b); lra. }
    apply Rabs_def2 in Ha.
    case_bool_decide.
    + pose proof (round2_nonneg (- a)). lra.
    + pose proof (round2_below_threshold a). lra.
  - rewrite (bool_decide_eq_false_2 (_ <= Rabs a)) by lra.
    rewrite (bool_decide_eq_false_2 (_ <= Rabs b)) by lra.
    repeat case_bool_decide.
    + pose proof (round2_mono (- b) (- a)). lra.
    + pose proof (round2_nonneg (- a)). pose proof (round2_nonneg b). lra.
    + lra.
    + apply round2_mono. exact Hab.
Qed.

Local Close Scope R_scope.

(** ** Exact arithmetic on finite series *)

Lemma finite_inv (x : xreal) : finite x -> exists r, x = XFin r.
Proof. destruct x; simpl; intros Hx; try contradiction. eauto. Qed.

Lemma finite_list_reals (l : list xreal) :
  Forall finite l -> exists rs, l = map XFin rs.
Proof.
  induction 1 as [|x l Hx _ [rs ->]].
  - exists []. reflexivity.
  - apply finite_inv in Hx as [r ->]. exists (r :: rs). reflexivity.
Qed.

Lemma map_XFin_finite (rs : list R) : Forall finite (map XFin rs).
Proof. induction rs; constructor; simpl; auto. Qed.

Lemma changes_of_finite (l : list xreal) :
  Forall finite l -> Forall finite (changes_of l).
Proof.
  induction 1 as [|x l Hx Hl IH]; [constructor|].
  destruct l as [|y l]; [constructor|].
  simpl. constructor; [|exact IH].
  apply Forall_inv in Hl.
  destruct x, y; simpl in *; try contradiction. exact I.
Qed.

Lemma slice_Forall {A} (P : A -> Prop) (start : Z) (l : list A) :
  Forall P l -> Forall P (JsArray.slice start l).
Proof. intros Hl. unfold JsArray.slice. apply Forall_drop. exact Hl. Qed.

Lemma sum_of_reals (rs : list R) (a : R) :
  fold_left add (map XFin rs) (XFin a) = XFin (a + Rsum rs).
Proof.
  revert a. induction rs as [|r rs IH]; intros a; simpl.
  - f_equal. lra.
  - rewrite IH. f_equal. lra.
Qed.

Lemma sum_nonneg (l : list xreal) (a : R) :
  Forall nonneg l -> (0 <= a)%R ->
  exists s, fold_left add l (XFin a) = XFin s /\ (a <= s)%R.
Proof.
  intros Hl. revert a. induction Hl as [|x l Hx _ IH]; intros a Ha; simpl.
  - exists a. split; [reflexivity|lra].
  - destruct x as [| |r]; simpl in Hx; try contradiction.
    destruct (IH (a + r)%R) as [s [Hs Hle]]; [lra|].
    exists s. split; [exact Hs|lra].
Qed.

Lemma gains_nonneg (l : list xreal) :
  Forall finite l ->
  Forall nonneg (filter (fun c => ltb (of_Z 0) c = true) l).
Proof.
  intros Hl. apply Forall_forall. intros c Hc.
  apply list_elem_of_filter in Hc as [Hpos Hin].
  rewrite Forall_forall in Hl. specialize (Hl c Hin).
  destruct c as [| |r]; simpl in *; try contradiction.
  apply bool_decide_eq_true in Hpos. lra.
Qed.

Lemma losses_nonneg (l : list xreal) :
  Forall finite l ->
  Forall nonneg (map Math_abs (filter (fun c => ltb c (of_Z 0) = true) l)).
Proof.
  intros Hl. apply Forall_forall. intros a Ha.
  apply list_elem_of_fmap in Ha as [c [-> Hc]].
  apply list_elem_of_filter in Hc as [_ Hin].
  rewrite Forall_forall in Hl. specialize (Hl c Hin).
  destruct c as [| |r]; simpl in *; try contradiction.
  apply Rabs_pos.
Qed.

(** The average [calculateRSI] takes of the gains, and of the losses, is a
    real that is not negative. *)
Lemma rsi_average_nonneg (l : list xreal) (period : Z) :
  0 < period -> Forall nonneg l ->
  exists g,
    (if 0 <? JsArray.len l
     then (JsArray.reduce add (of_Z 0) l / of_Z period)%js
     else of_Z 0) = XFin g /\ (0 <= g)%R.
Proof.
  intros Hp Hl. destruct (0 <? JsArray.len l).
  - destruct (sum_nonneg l 0 Hl) as [s [Hs Hle]]; [lra|].
    unfold JsArray.reduce. simpl of_Z. rewrite Hs. simpl.
    assert (Hpos : (0 < IZR period)%R) by (apply IZR_lt; lia).
    rewrite bool_decide_eq_false_2 by lra.
    eexists. split; [reflexivity|].
    apply Rmult_le_pos; [lra|]. apply Rlt_le, Rinv_0_lt_compat. exact Hpos.
  - exists 0%R. split; [reflexivity|lra].
Qed.

Lemma rsi_within_0_100 (closes : list xreal) (period : Z) :
  0 < period -> Forall finite closes ->
  within_0_100 (calculateRSI closes period).
Proof.
  intros Hp Hfin. unfold calculateRSI.
  destruct (JsArray.len closes <? period + 1).
  { simpl. lra. }
  pose proof (slice_Forall finite (- period) _ (changes_of_finite _ Hfin))
    as Hwin.
  destruct (rsi_average_nonneg _ period Hp (gains_nonneg _ Hwin))
    as [g [-> Hg]].
  destruct (rsi_average_nonneg _ period Hp (losses_nonneg _ Hwin))
    as [l [-> Hl]].
  simpl. case_bool_decide as Hzero.
  { simpl. lra. }
  assert (Hlpos : (0 < l)%R) by lra.
  assert (Hratio : (0 <= g / l)%R).
  { apply Rmult_le_pos; [lra|]. apply Rlt_le, Rinv_0_lt_compat. lra. }
  rewrite bool_decide_eq_false_2 by lra.
  simpl.
  assert (Hq : (0 < 100 / (1 + g / l) <= 100)%R).
  { split.
    - apply Rdiv_lt_0_compat; lra.
    - apply (Rmult_le_reg_r (1 + g / l)); [lra|].
      unfold Rdiv at 1. rewrite Rmult_assoc, Rinv_l by lra. lra. }
  lra.
Qed.

Lemma rsi_fallback {N} `{JsNumber N} (closes : list N) (period : Z) :
  JsArray.len closes < period + 1 -> calculateRSI closes period = of_Z 50.
Proof.
  intros Hlen. unfold calculateRSI.
  replace (JsArray.len closes <? period + 1) with true
    by (symmetry; apply Z.ltb_lt; exact Hlen).
  reflexivity.
Qed.

(** ** Bollinger bands in exact arithmetic *)

Lemma slice_map {A B} (f : A -> B) (start : Z) (l : list A) :
  JsArray.slice start (map f l) = map f (JsArray.slice start l).
Proof. unfold JsArray.slice. rewrite length_map. apply skipn_map. Qed.

Lemma squared_deviations_nonneg (w : list R) (m : R) :
  (0 <= squared_deviations w m)%R.
Proof.
  unfold squared_deviations. induction w as [|x w IH]; simpl; [lra|].
  pose proof (Rle_0_sqr (x - m)) as Hsq. unfold Rsqr in Hsq. lra.
Qed.

Lemma squared_deviation_le_sum (w : list R) (m x : R) :
  x ∈ w -> ((x - m) * (x - m) <= squared_deviations w m)%R.
Proof.
  unfold squared_deviations. induction 1 as [x w|x y w _ IH]; simpl.
  - pose proof (squared_deviations_nonneg w m) as Hw.
    unfold squared_deviations in Hw. lra.
  - pose proof (Rle_0_sqr (y - m)) as Hsq. unfold Rsqr in Hsq. lra.
Qed.

Lemma sum_squared_deviations (w : list R) (m a : R) :
  fold_left (fun sum price => (sum + Math_pow2 (price - XFin m))%js)
            (map XFin w) (XFin a)
  = XFin (a + squared_deviations w m).
Proof.
  unfold squared_deviations.
  revert a. induction w as [|x w IH]; intros a; simpl.
  - f_equal. lra.
  - rewrite IH. f_equal. lra.
Qed.

Lemma sma_of_reals (rs : list R) (period : Z) :
  0 < period -> rs <> [] ->
  calculateSMA (map XFin rs) period
  = XFin (mean (JsArray.slice (- period) rs)).
Proof.
  intros Hp Hne. unfold calculateSMA.
  rewrite sma_window_is_band_window by exact Hp.
  rewrite slice_map. unfold JsArray.reduce. simpl of_Z.
  rewrite sum_of_reals. unfold JsArray.len at 1. rewrite length_map.
  simpl.
  pose proof (slice_window_nonempty period rs Hp Hne) as Hw.
  assert (Hlen : (0 < IZR (Z.of_nat (length (JsArray.slice (- period) rs))))%R).
  { apply IZR_lt. destruct (JsArray.slice (- period) rs); [congruence|].
    simpl length. lia. }
  rewrite bool_decide_eq_false_2 by lra.
  unfold mean, JsArray.len. f_equal. f_equal. lra.
Qed.

(** What [calculateBollingerBands] returns on a series of reals. *)
Lemma bollinger_of_reals (rs : list R) (period : Z) :
  0 < period -> rs <> [] ->
  let w := JsArray.slice (- period) rs in
  let m := mean w in
  let sd := R_sqrt.sqrt (variance_over w m period) in
  calculateBollingerBands (map XFin rs) period
  = {| upper := XFin (fix2 (m + sd * 2));
       middle := XFin (fix2 m);
       lower := XFin (fix2 (m - sd * 2)) |}.
Proof.
  intros Hp Hne w m sd. unfold calculateBollingerBands.
  rewrite sma_of_reals by assumption. fold w. fold m.
  rewrite slice_map. fold w. unfold JsArray.reduce. simpl of_Z.
  rewrite sum_squared_deviations.
  assert (Hpos : (0 < IZR period)%R) by (apply IZR_lt; lia).
  pose proof (squared_deviations_nonneg w m) as Hdev.
  assert (Hvar : (0 <= variance_over w m period)%R).
  { unfold variance_over. apply Rmult_le_pos; [exact Hdev|].
    apply Rlt_le, Rinv_0_lt_compat. exact Hpos. }
  simpl div. rewrite bool_decide_eq_false_2 by lra.
  replace ((0 + squared_deviations w m) / IZR period)%R
    with (variance_over w m period) by (unfold variance_over; lra).
  simpl Math_sqrt. rewrite bool_decide_eq_false_2 by lra.
  fold sd. simpl mul. simpl add. simpl sub.
  rewrite !toFixed2_fin. reflexivity.
Qed.

(** A window of equal closes: the mean is that close and nothing deviates. *)
Lemma constant_window (w : list R) (c : R) :
  w <> [] -> (forall x, x ∈ w -> x = c) ->
  mean w = c /\ squared_deviations w c = 0%R.
Proof.
  intros Hne Hall.
  assert (Hsum : Rsum w = (IZR (JsArray.len w) * c)%R
                 /\ squared_deviations w c = 0%R).
  { clear Hne. unfold squared_deviations, JsArray.len.
    induction w as [|x w IH]; simpl.
    - change (Z.of_nat 0) with 0. split; lra.
    - destruct IH as [IH1 IH2].
      { intros y Hy. apply Hall. right. exact Hy. }
      rewrite (Hall x) by left.
      split.
      + rewrite Nat2Z.inj_succ, succ_IZR, IH1. lra.
      + rewrite IH2. lra. }
  destruct Hsum as [Hsum Hdev]. split; [|exact Hdev].
  unfold mean. rewrite Hsum.
  assert (Hlen : (0 < IZR (JsArray.len w))%R).
  { apply IZR_lt. unfold JsArray.len. destruct w; [congruence|].
    simpl length. lia. }
  field. lra.
Qed.

Lemma elem_of_map_XFin (x : R) (w : list R) : XFin x ∈ map XFin w -> x ∈ w.
Proof.
  intros Hx. apply list_elem_of_fmap in Hx as [y [Heq Hy]].
  injection Heq as ->. exact Hy.
Qed.

Lemma Rabs_le_bounds (a b : R) : (Rabs a <= b)%R -> (- b <= a <= b)%R.
Proof. unfold Rabs. destruct (Rcase_abs a); lra. Qed.

(** Bands that coincide leave little room: rounding moves each band by at
    most 0.005, so the standard deviation is at most 0.0025. *)
Lemma equal_bands_small_deviation (m sd : R) :
  (0 <= sd)%R -> fix2 (m - sd * 2) = fix2 (m + sd * 2) ->
  (sd <= 25 / 10000)%R.
Proof.
  intros Hsd Heq.
  pose proof (fix2_error (m - sd * 2)) as Hlo.
  pose proof (fix2_error (m + sd * 2)) as Hup.
  rewrite Heq in Hlo.
  apply Rabs_le_bounds in Hlo. apply Rabs_le_bounds in Hup. lra.
Qed.

Lemma small_square_small (d : R) :
  (d * d <= 125 / 1000000)%R -> (Rabs d <= 112 / 10000)%R.
Proof.
  intros Hd. apply Rabs_le.
  split; [destruct (Rle_lt_dec (- (112 / 10000)) d) as [Hle|Hlt]
         | destruct (Rle_lt_dec d (112 / 10000)) as [Hle|Hlt]];
    try exact Hle; exfalso; nra.
Qed.


Lemma fix2_cell (r : R) (z : Z) :
  (0 <= r < IZR (10 ^ 21))%R ->
  (IZR z <= r * 100 + / 2 < IZR z + 1)%R ->
  fix2 r = (IZR z / 100)%R.
Proof.
  intros [H0 HT] Hcell. unfold fix2.
  rewrite bool_decide_eq_false_2 by (rewrite Rabs_pos_eq; lra).
  rewrite bool_decide_eq_false_2 by lra.
  unfold Ideal.round2. rewrite (Int_part_unique _ z Hcell). reflexivity.
Qed.

Lemma sqrt_below (v b : R) :
  (0 <= v)%R -> (0 <= b)%R -> (v < b * b)%R -> (R_sqrt.sqrt v < b)%R.
Proof.
  intros Hv Hb Hlt. rewrite <- (sqrt_square b Hb).
  apply sqrt_lt_1; [exact Hv| nra |exact Hlt].
Qed.

(** ** C1 *)

Lemma nearly_flat_ideal :
  nearly_flat = map XFin ((10001 / 100)%R :: repeat 100%R 19).
Proof.
  unfold nearly_flat. simpl.
  rewrite bool_decide_eq_false_2 by lra. reflexivity.
Qed.



(** ** C2 *)



(** ** C3 *)

Lemma div_of_reals (a b : R) : b <> 0%R -> (XFin a / XFin b)%js = XFin (a / b).
Proof. intros Hb. simpl. rewrite bool_decide_eq_false_2 by exact Hb. reflexivity. Qed.

Lemma lit_0_8_ideal : lit_0_8 = XFin (8 / 10).
Proof. unfold lit_0_8. simpl of_Z. apply div_of_reals. lra. Qed.

Lemma lit_0_2_ideal : lit_0_2 = XFin (2 / 10).
Proof. unfold lit_0_2. simpl of_Z. apply div_of_reals. lra. Qed.

Lemma ema_of_reals (closes : list xreal) (period : Z) :
  0 < period -> Forall finite closes ->
  exists e, calculateEMA closes period = XFin e.
Proof.
  intros Hp Hfin. unfold calculateEMA.
  destruct Hfin as [|first rest Hfirst Hrest]; [eexists; reflexivity|].
  apply finite_inv in Hfirst as [a ->].
  assert (Hk : (of_Z 2 / of_Z (period + 1))%js
               = XFin (2 / IZR (period + 1))).
  { simpl. assert (0 < IZR (period + 1))%R by (apply IZR_lt; lia).
    rewrite bool_decide_eq_false_2 by lra. reflexivity. }
  rewrite Hk. clear Hk. revert a.
  induction Hrest as [|x rest Hx _ IH]; intros a; simpl.
  - eexists; reflexivity.
  - apply finite_inv in Hx as [b ->]. simpl. apply IH.
Qed.



Lemma ema_reals (a : R) (rest : list R) (period : Z) :
  0 < period ->
  calculateEMA (map XFin (a :: rest)) period
  = XFin (fold_left (ema_step period) rest a).
Proof.
  intros Hp. unfold calculateEMA. simpl map. simpl of_Z.
  assert (Hnz : IZR (period + 1) <> 0%R).
  { assert (0 < IZR (period + 1))%R by (apply IZR_lt; lia). lra. }
  rewrite (div_of_reals 2 (IZR (period + 1)) Hnz).
  revert a. induction rest as [|x rest IH]; intros a; simpl.
  - reflexivity.
  - apply IH.
Qed.


(** ** C4 *)

Lemma ema_over_zeros (period : Z) (n : nat) (a : R) :
  fold_left (ema_step period) (repeat 0%R n) a
  = (a * (1 - 2 / IZR (period + 1)) ^ n)%R.
Proof.
  revert a. induction n as [|n IH]; intros a; simpl.
  - lra.
  - rewrite IH. unfold ema_step. lra.
Qed.

Lemma slice_drops_first {A} (x : A) (tl : list A) :
  tl <> [] -> JsArray.slice (- JsArray.len tl) (x :: tl) = tl.
Proof.
  intros Hne. rewrite slice_negative_drop.
  - unfold JsArray.len. rewrite Nat2Z.id. simpl length.
    replace (S (length tl) - length tl)%nat with 1%nat by lia. reflexivity.
  - unfold JsArray.len. destruct tl; [congruence|]. simpl length. lia.
Qed.

Lemma history_matters_from_2 (p : Z) : 1 < p -> history_matters p.
Proof.
  intros Hp.
  set (n := Z.to_nat p).
  assert (Hn : JsArray.len (map XFin (repeat 0%R n)) = p).
  { unfold JsArray.len. rewrite length_map, repeat_length. subst n. lia. }
  assert (Hne : map XFin (repeat 0%R n) <> []).
  { intros Hnil. rewrite Hnil in Hn. unfold JsArray.len in Hn. simpl in Hn. lia. }
  exists (map XFin (1%R :: repeat 0%R n)), (map XFin (0%R :: repeat 0%R n)).
  split; [apply map_XFin_finite|]. split; [apply map_XFin_finite|]. split.
  - change (map XFin (1%R :: repeat 0%R n))
      with (XFin 1 :: map XFin (repeat 0%R n)).
    change (map XFin (0%R :: repeat 0%R n))
      with (XFin 0 :: map XFin (repeat 0%R n)).
    rewrite <- Hn.
    rewrite !slice_drops_first by exact Hne. reflexivity.
  - rewrite !ema_reals by lia. rewrite !ema_over_zeros.
    intros Heq. injection Heq as Heq.
    assert (Hpos : (2 < IZR (p + 1))%R) by (apply IZR_lt; lia).
    assert (Hbase : (1 - 2 / IZR (p + 1) <> 0)%R).
    { intros Hz. apply Rminus_diag_uniq in Hz.
      assert (Hone : (2 / IZR (p + 1) * IZR (p + 1) = 2)%R)
        by (field; lra).
      rewrite <- Hz in Hone. lra. }
    pose proof (pow_nonzero _ n Hbase) as Hpow. lra.
Qed.

Lemma ema_period_one (front : list R) (x : R) :
  calculateEMA (map XFin (front ++ [x])) 1 = XFin x.
Proof.
  destruct front as [|a front]; [reflexivity|].
  change ((a :: front) ++ [x]) with (a :: (front ++ [x])).
  rewrite ema_reals by lia. rewrite fold_left_app. simpl.
  unfold ema_step. change (1 + 1) with 2. f_equal. lra.
Qed.

Lemma slice_last {A} (front : list A) (x : A) :
  JsArray.slice (- 1) (front ++ [x]) = [x].
Proof.
  change (-1) with (- (1)). rewrite slice_negative_drop by lia.
  rewrite length_app. simpl length.
  replace (length front + 1 - Z.to_nat 1)%nat with (length front) by lia.
  apply drop_app_length.
Qed.

Lemma snoc_view {A} (l : list A) :
  l = [] \/ exists front x, l = front ++ [x].
Proof.
  induction l as [|x front _] using rev_ind; [left; reflexivity|].
  right. exists front, x. reflexivity.
Qed.

(** Against C4 as stated: at period 1 the factor [k] is 1 and the EMA is
    the last close, so nothing before the trailing point matters. *)
Lemma ema_period_1_forgets_history : ~ history_matters 1.
Proof.
  intros (s1 & s2 & Hf1 & Hf2 & Hslice & Hneq).
  destruct (finite_list_reals s1 Hf1) as [r1 ->].
  destruct (finite_list_reals s2 Hf2) as [r2 ->].
  rewrite !slice_map in Hslice.
  destruct (snoc_view r1) as [->|(f1 & x1 & ->)];
    destruct (snoc_view r2) as [->|(f2 & x2 & ->)].
  - apply Hneq. reflexivity.
  - rewrite slice_last in Hslice. discriminate Hslice.
  - rewrite slice_last in Hslice. discriminate Hslice.
  - rewrite !slice_last in Hslice. injection Hslice as ->.
    apply Hneq. rewrite !ema_period_one. reflexivity.
Qed.

(** C4 (as amended). On a non-empty series and for a period p > 0,
    [calculateEMA] is the recurrence run over the entire series from its
    first element: ema_0 = close_0 and
    ema_i = close_i * k + ema_(i-1) * (1 - k) with k = 2 / (p + 1). For
    p > 1 the result therefore depends on more of the history than the
    trailing p closes. *)
Theorem ema_recurrence_over_history {N} `{JsNumber N}
    (closes : list N) (p : Z) :
  closes <> [] -> 0 < p ->
  calculateEMA closes p = ema_at closes p (length closes - 1)
  /\ (1 < p -> history_matters p).
Proof.
  intros Hne Hp. split.
  - apply calculateEMA_is_recurrence. exact Hne.
  - apply history_matters_from_2.
Qed.

Lemma ema_recurrence_over_history_witness :
  [of_Z 44; of_Z 45; of_Z 43] <> []
  /\ 0 < 12
  /\ calculateEMA (N:=float) [of_Z 44; of_Z 45; of_Z 43] 12
     = ema_at [of_Z 44; of_Z 45; of_Z 43] 12 2
  /\ (1 < 12 -> history_matters 12).
Proof.
  split; [discriminate|]. split; [lia|].
  apply (ema_recurrence_over_history (N:=float)
           [of_Z 44; of_Z 45; of_Z 43] 12); [discriminate|lia].
Defined.

(** ** A flat series *)

Lemma filter_none {A} (P : A -> Prop) `{forall x, Decision (P x)}
    (l : list A) :
  Forall (fun x => ~ P x) l -> filter P l = [].
Proof.
  induction 1 as [|x l Hx _ IH]; [reflexivity|].
  rewrite filter_cons_False by exact Hx. exact IH.
Qed.

Lemma changes_of_flat (c : R) (l : list xreal) :
  Forall (fun x => x = XFin c) l ->
  Forall (fun d => d = XFin (c - c)) (changes_of l).
Proof.
  induction 1 as [|x l Hx Hl IH]; [constructor|].
  destruct l as [|y l]; [constructor|].
  simpl. constructor; [|exact IH].
  apply Forall_inv in Hl. subst x y. reflexivity.
Qed.

(** On a flat series of at least 15 closes nothing is gained and nothing
    lost: the average loss is 0 and [calculateRSI] returns 100. *)
Lemma rsi_of_flat_series (c : R) (n : nat) :
  (15 <= n)%nat -> calculateRSI (repeat (XFin c) n) 14 = of_Z 100.
Proof.
  intros Hn. unfold calculateRSI.
  replace (JsArray.len (repeat (XFin c) n) <? 14 + 1) with false.
  2:{ symmetry. apply Z.ltb_ge. unfold JsArray.len.
      rewrite repeat_length. lia. }
  assert (Hflat : Forall (fun d => d = XFin (c - c))
                    (JsArray.slice (- (14))
                       (changes_of (repeat (XFin c) n)))).
  { apply slice_Forall, changes_of_flat.
    apply Forall_forall. intros x Hx.
    apply list_elem_of_In, repeat_spec in Hx. exact Hx. }
  rewrite (filter_none (fun c0 => ltb (of_Z 0) c0 = true)).
  2:{ eapply Forall_impl; [exact Hflat|]. intros d ->. simpl.
      rewrite bool_decide_eq_false_2 by lra. discriminate. }
  rewrite (filter_none (fun c0 => ltb c0 (of_Z 0) = true)).
  2:{ eapply Forall_impl; [exact Hflat|]. intros d ->. simpl.
      rewrite bool_decide_eq_false_2 by lra. discriminate. }
  simpl. rewrite bool_decide_eq_true_2 by reflexivity. reflexivity.
Qed.

Lemma fix2_100 : fix2 100 = 100%R.
Proof.
  assert (Hbig : (1000 <= IZR (10 ^ 21))%R) by (apply IZR_le; lia).
  rewrite (fix2_cell 100 10000) by lra. lra.
Qed.

Lemma bollinger_of_flat_series (n : nat) :
  (0 < n)%nat ->
  calculateBollingerBands (repeat (XFin 100) n) 20 = bands_100.
Proof.
  intros Hn.
  assert (Hne : repeat 100%R n <> []) by (destruct n; [lia|discriminate]).
  rewrite <- (map_repeat 100%R n XFin).
  rewrite bollinger_of_reals by (try reflexivity; exact Hne).
  set (w := JsArray.slice (- (20)) (repeat 100%R n)).
  assert (Hw : w <> []) by (apply slice_window_nonempty; [lia|exact Hne]).
  assert (Hall : forall x, x ∈ w -> x = 100%R).
  { intros x Hx.
    assert (Hrep : Forall (fun y => y = 100%R) (repeat 100%R n)).
    { apply Forall_forall. intros y Hy.
      apply list_elem_of_In, repeat_spec in Hy. exact Hy. }
    apply (slice_Forall _ (- (20))) in Hrep. fold w in Hrep.
    rewrite Forall_forall in Hrep. apply Hrep. exact Hx. }
  destruct (constant_window w 100 Hw Hall) as [-> Hdev].
  unfold variance_over. rewrite Hdev.
  replace (0 / 20)%R with 0%R by lra. rewrite sqrt_0.
  replace (100 + 0 * 2)%R with 100%R by lra.
  replace (100 - 0 * 2)%R with 100%R by lra.
  rewrite fix2_100. reflexivity.
Qed.

(** ** C6 *)

(** Against C6 as stated: on [flat_bars] the RSI is not 50. *)
Lemma flat_series_rsi_is_not_50 :
  (forall now sym,
     rsi (calculateTechnicalIndicators (N:=float) now flat_bars sym)
     <> of_Z 50)
  /\ (forall now sym,
        rsi (calculateTechnicalIndicators (N:=xreal) now flat_bars sym)
        <> of_Z 50).
Proof.
  split; intros now sym.
  - intros Heq. floats_differ Heq.
  - unfold calculateTechnicalIndicators, rsi, flat_bars.
    rewrite map_repeat. simpl close.
    rewrite (rsi_of_flat_series 100 30) by lia.
    simpl. intros Heq. injection Heq as Heq. lra.
Qed.

(** C6 (as amended). On thirty bars that all close at 100 the snapshot has
    the bands upper = middle = lower = 100, and its RSI is 100: with no
    losses in the window the average loss is 0, and [calculateRSI] answers
    100 whenever it is. In doubles and in exact arithmetic. *)
Theorem flat_series_snapshot :
  (forall now sym,
     let snap := calculateTechnicalIndicators (N:=float) now flat_bars sym in
     bollingerBands snap = bands_100 /\ rsi snap = of_Z 100)
  /\ (forall now sym,
        let snap := calculateTechnicalIndicators (N:=xreal) now flat_bars sym in
        bollingerBands snap = bands_100 /\ rsi snap = of_Z 100).
Proof.
  split; intros now sym snap.
  - split; vm_compute; reflexivity.
  - subst snap.
    unfold calculateTechnicalIndicators, rsi, bollingerBands, flat_bars.
    rewrite map_repeat. simpl close. split.
    + apply bollinger_of_flat_series. lia.
    + apply (rsi_of_flat_series 100 30). lia.
Qed.

(** ** The empty series: C5 and C10 *)

Lemma fix2_0 : fix2 0 = 0%R.
Proof.
  assert (Hbig : (1000 <= IZR (10 ^ 21))%R) by (apply IZR_le; lia).
  rewrite (fix2_cell 0 0) by lra. lra.
Qed.

Lemma sma_of_nothing_ideal (period : Z) :
  0 <= period -> calculateSMA (N:=xreal) [] period = nan.
Proof.
  intros Hp. unfold calculateSMA.
  replace (JsArray.slice _ (@nil xreal)) with (@nil xreal)
    by (unfold JsArray.slice; rewrite drop_nil; reflexivity).
  simpl. rewrite !bool_decide_eq_true_2 by reflexivity. reflexivity.
Qed.

Lemma bollinger_of_nothing_ideal :
  calculateBollingerBands (N:=xreal) [] 20 = bands_nan.
Proof.
  unfold calculateBollingerBands.
  rewrite sma_of_nothing_ideal by lia. reflexivity.
Qed.

Lemma macd_of_nothing_ideal : calculateMACD (N:=xreal) [] = macd_zero.
Proof.
  unfold calculateMACD, calculateEMA.
  rewrite lit_0_8_ideal, lit_0_2_ideal. simpl of_Z. simpl sub. simpl mul.
  replace (0 - 0)%R with 0%R by lra.
  replace (0 * (8 / 10))%R with 0%R by lra.
  replace (0 * (2 / 10))%R with 0%R by lra.
  rewrite toFixed2_fin, fix2_0. reflexivity.
Qed.

Lemma snapshot_of_nothing_ideal (now : Z) (sym : string) :
  calculateTechnicalIndicators (N:=xreal) now [] sym = empty_snapshot now sym.
Proof.
  unfold calculateTechnicalIndicators, empty_snapshot. simpl map.
  rewrite macd_of_nothing_ideal, bollinger_of_nothing_ideal.
  rewrite !sma_of_nothing_ideal by (unfold JsArray.len; simpl; lia).
  reflexivity.
Qed.

(** Against C5 as stated: on the empty series [calculateSMA],
    [calculateBollingerBands] and [calculateMACD] return (NaN, three NaNs,
    three zeros) and the aggregator returns a snapshot; nothing throws
    [EmptySeries] or [InsufficientData]. *)
Lemma empty_series_raises_nothing :
  sma (N:=float) [] 20 = Returns nan
  /\ sma (N:=float) [] 20 <> Throws EmptySeries
  /\ bollingerBands_of (N:=float) [] = Returns bands_nan
  /\ bollingerBands_of (N:=float) [] <> Throws EmptySeries
  /\ macd_of (N:=float) [] = Returns macd_zero
  /\ macd_of (N:=float) [] <> Throws EmptySeries
  /\ computeIndicators (N:=float) 0 "TCS" [] = Returns (empty_snapshot 0 "TCS")
  /\ computeIndicators (N:=float) 0 "TCS" [] <> Throws InsufficientData.
Proof.
  repeat split; try discriminate; vm_compute; reflexivity.
Qed.

(** C5 (as amended). No indicator function and no call of the aggregator
    ends in [EmptySeries] or [InsufficientData], on an empty input or on any
    other: the code has no error path. On the empty series [calculateSMA]
    returns NaN, [calculateBollingerBands] three NaNs and [calculateMACD]
    three zeros, and the aggregator returns the snapshot made of these. *)
Theorem indicators_raise_no_error :
  (forall N (HN : JsNumber N) (closes : list N) (period : Z) e,
     sma closes period <> Throws e
     /\ bollingerBands_of closes <> Throws e
     /\ macd_of closes <> Throws e)
  /\ (forall N (HN : JsNumber N) now sym (bars : list (HistoricalPrice N)) e,
        computeIndicators now sym bars <> Throws e)
  /\ (sma (N:=float) [] 20 = Returns nan
      /\ bollingerBands_of (N:=float) [] = Returns bands_nan
      /\ macd_of (N:=float) [] = Returns macd_zero)
  /\ (sma (N:=xreal) [] 20 = Returns nan
      /\ bollingerBands_of (N:=xreal) [] = Returns bands_nan
      /\ macd_of (N:=xreal) [] = Returns macd_zero).
Proof.
  split; [intros; repeat split; discriminate|].
  split; [intros; discriminate|].
  split; [repeat split; vm_compute; reflexivity|].
  unfold sma, bollingerBands_of, macd_of.
  rewrite sma_of_nothing_ideal by lia.
  rewrite bollinger_of_nothing_ideal, macd_of_nothing_ideal.
  repeat split.
Qed.

(** C10. For every list of bars, the empty one included,
    [calculateTechnicalIndicators] and the helpers it calls return
    normally. On the empty list the snapshot has rsi = 50,
    macd = (0, 0, 0), and NaN in every field of [movingAverages] and of
    [bollingerBands]. In doubles and in exact arithmetic. *)
Theorem aggregator_total_and_empty_snapshot :
  (forall N (HN : JsNumber N) now sym (bars : list (HistoricalPrice N)),
     let closes := map close bars in
     computeIndicators now sym bars
     = Returns (calculateTechnicalIndicators now bars sym)
     /\ rsi_of closes = Returns (calculateRSI closes 14)
     /\ macd_of closes = Returns (calculateMACD closes)
     /\ ema closes 12 = Returns (calculateEMA closes 12)
     /\ ema closes 26 = Returns (calculateEMA closes 26)
     /\ sma closes 20 = Returns (calculateSMA closes 20)
     /\ sma closes 50 = Returns (calculateSMA closes 50)
     /\ sma closes (Z.min 200 (JsArray.len closes))
        = Returns (calculateSMA closes (Z.min 200 (JsArray.len closes)))
     /\ bollingerBands_of closes = Returns (calculateBollingerBands closes 20))
  /\ (forall now sym,
        computeIndicators (N:=float) now sym []
        = Returns (empty_snapshot now sym))
  /\ (forall now sym,
        computeIndicators (N:=xreal) now sym []
        = Returns (empty_snapshot now sym)).
Proof.
  split; [intros; repeat split|].
  split; intros now sym; unfold computeIndicators.
  - vm_compute. reflexivity.
  - rewrite snapshot_of_nothing_ideal. reflexivity.
Qed.

(** ** C9 *)

(** Against C9 as stated: two calls on the same bars, made while the clock
    reads 0 and 1, return snapshots that differ (in [lastUpdated]). *)
Lemma same_bars_different_snapshots :
  calculateTechnicalIndicators (N:=float) 0 [bar (of_Z 100)] "TCS"
  <> calculateTechnicalIndicators (N:=float) 1 [bar (of_Z 100)] "TCS".
Proof.
  intros Heq. apply (f_equal lastUpdated) in Heq. discriminate Heq.
Qed.

(** C9 (as amended). Two calls of [calculateTechnicalIndicators] on the
    same bars and symbol return snapshots that agree in every field but
    [lastUpdated], which is what the clock read at each call; made at the
    same clock reading, they are identical. *)
Theorem snapshot_deterministic_up_to_clock {N} `{JsNumber N}
    (bars1 bars2 : list (HistoricalPrice N)) (sym : string)
    (now1 now2 : Z) :
  bars1 = bars2 ->
  let a := calculateTechnicalIndicators now1 bars1 sym in
  let b := calculateTechnicalIndicators now2 bars2 sym in
  a = {| symbol := symbol b;
         rsi := rsi b;
         macd := macd b;
         movingAverages := movingAverages b;
         bollingerBands := bollingerBands b;
         lastUpdated := now1 |}
  /\ lastUpdated a = now1
  /\ lastUpdated b = now2
  /\ (now1 = now2 -> a = b).
Proof.
  intros <- a b. subst a b. split; [reflexivity|].
  split; [reflexivity|]. split; [reflexivity|].
  intros <-. reflexivity.
Qed.

Lemma snapshot_deterministic_up_to_clock_witness :
  let bars := [bar (N:=float) (of_Z 100); bar (of_Z 101)] in
  let a := calculateTechnicalIndicators 0 bars "TCS" in
  let b := calculateTechnicalIndicators 1 bars "TCS" in
  bars = bars
  /\ a = {| symbol := symbol b;
            rsi := rsi b;
            macd := macd b;
            movingAverages := movingAverages b;
            bollingerBands := bollingerBands b;
            lastUpdated := 0 |}
  /\ lastUpdated a = 0
  /\ lastUpdated b = 1
  /\ (0 = 1 -> a = b).
Proof.
  cbv zeta. split; [reflexivity|].
  apply (snapshot_deterministic_up_to_clock
           [bar (N:=float) (of_Z 100); bar (of_Z 101)]
           [bar (N:=float) (of_Z 100); bar (of_Z 101)] "TCS" 0 1 eq_refl).
Defined.

(** ** C8 *)

Section Cache.
Context {N : Type}.
Implicit Types (st : MemStorage N) (v : TechnicalIndicators N).

Lemma get_after_set st v :
  getTechnicalIndicators v.(symbol) (setTechnicalIndicators v st) = Some v.
Proof.
  unfold getTechnicalIndicators, setTechnicalIndicators. simpl.
  apply lookup_insert_eq.
Qed.

Lemma get_other_after_set st v (k : string) :
  k <> v.(symbol) ->
  getTechnicalIndicators k (setTechnicalIndicators v st)
  = getTechnicalIndicators k st.
Proof.
  intros Hk. unfold getTechnicalIndicators, setTechnicalIndicators. simpl.
  apply lookup_insert_ne. congruence.
Qed.

Lemma isStale_spec (entry : option (TechnicalIndicators N)) (now ttl : Z) :
  isStale entry now ttl = true
  <-> entry = None
      \/ exists v, entry = Some v /\ now - v.(lastUpdated) > ttl.
Proof.
  destruct entry as [v|]; simpl.
  - rewrite Z.ltb_lt. split.
    + intros Hlt. right. exists v. split; [reflexivity|lia].
    + intros [Hnone|(v' & Hv & Hgt)]; [discriminate|].
      injection Hv as <-. lia.
  - split; [intros _; left; reflexivity|reflexivity].
Qed.

(** C8 (as amended). After [setTechnicalIndicators v] an immediate
    [getTechnicalIndicators] for [v]'s symbol returns exactly [v], whatever
    the store held under that symbol. The store keeps no time of its own:
    staleness is counted from [v.lastUpdated]. So the entry just set is
    stale at time [now] exactly when [now - v.lastUpdated > ttl]: it is
    fresh at its own timestamp and still fresh when exactly [ttl]
    milliseconds have passed since, and stale from one millisecond later. *)
Theorem cache_set_then_get_and_staleness st v (ttl now : Z) :
  0 <= ttl ->
  let entry :=
    getTechnicalIndicators v.(symbol) (setTechnicalIndicators v st) in
  entry = Some v
  /\ (isStale entry now ttl = true <-> now - v.(lastUpdated) > ttl)
  /\ isStale entry v.(lastUpdated) ttl = false
  /\ isStale entry (v.(lastUpdated) + ttl) ttl = false
  /\ isStale entry (v.(lastUpdated) + ttl + 1) ttl = true
  /\ isStale (getTechnicalIndicators v.(symbol) (MemStorage_new (N:=N)))
             now ttl = true.
Proof.
  intros Httl entry. subst entry. rewrite get_after_set.
  split; [reflexivity|]. simpl. split; [rewrite Z.ltb_lt; lia|].
  split; [apply Z.ltb_ge; lia|].
  split; [apply Z.ltb_ge; lia|].
  split; [apply Z.ltb_lt; lia|reflexivity].
Qed.

End Cache.

Lemma cache_set_then_get_and_staleness_witness :
  0 <= 300000
  /\ let v := empty_snapshot (N:=float) 1000 "TCS" in
     let entry :=
       getTechnicalIndicators "TCS"
         (setTechnicalIndicators v MemStorage_new) in
     entry = Some v
     /\ (isStale entry 2000 300000 = true <-> 2000 - 1000 > 300000)
     /\ isStale entry 1000 300000 = false
     /\ isStale entry (1000 + 300000) 300000 = false
     /\ isStale entry (1000 + 300000 + 1) 300000 = true
     /\ isStale (getTechnicalIndicators "TCS" (MemStorage_new (N:=float)))
                2000 300000 = true.
Proof.
  split; [lia|].
  apply (cache_set_then_get_and_staleness
           MemStorage_new (empty_snapshot (N:=float) 1000 "TCS")
           300000 2000).
  lia.
Defined.

(** Against C8 as stated: a snapshot stamped at time 0 and set at time
    400000 is stale (TTL 300000) immediately after the set; and a snapshot
    stamped and set at time 0 is not stale when exactly 300000 ms have
    elapsed. *)
Lemma entry_stale_right_after_set :
  let v := empty_snapshot (N:=float) 0 "TCS" in
  let st := setTechnicalIndicators v MemStorage_new in
  getTechnicalIndicators "TCS" st = Some v
  /\ isStale (getTechnicalIndicators "TCS" st) 400000 300000 = true
  /\ isStale (getTechnicalIndicators "TCS" st) 300000 300000 = false.
Proof.
  cbv zeta.
  change "TCS" with (symbol (empty_snapshot (N:=float) 0 "TCS")) at 1 4 7.
  rewrite get_after_set. repeat split.
Qed.

(** ** C7 *)

Lemma len_zero_iff_nil {A} (l : list A) :
  (JsArray.len l =? 0) = true <-> l = [].
Proof.
  unfold JsArray.len. rewrite Z.eqb_eq. destruct l; simpl; split;
    intros Hl; try reflexivity; try discriminate; lia.
Qed.

Lemma len_positive_iff_cons {A} (l : list A) :
  (0 <? JsArray.len l) = true <-> l <> [].
Proof.
  unfold JsArray.len. rewrite Z.ltb_lt. destruct l; simpl; split;
    intros Hl; try congruence; try lia.
Qed.

Section RouteFacts.
Context {N : Type} `{JsNumber N}.
Variable parseSymbol : string -> option string.
Variable upstream : string -> string -> list (HistoricalPrice N).
Variable now : Z.

Abbreviation route := (technicalRoute parseSymbol upstream now).

(** A cached entry that is at most 300000 ms old is answered as it is:
    nothing is computed, fetched or written. *)
Lemma route_hit (param sym : string) (w : World N)
    (ind : TechnicalIndicators N) :
  parseSymbol param = Some sym ->
  getTechnicalIndicators sym (store w) = Some ind ->
  now - ind.(lastUpdated) <= 300000 ->
  route param w = (Json ind, w).
Proof.
  intros Hparse Hget Hage. unfold technicalRoute. rewrite Hparse.
  unfold bind, reads, ret. rewrite Hget. simpl.
  replace (300000 <? now - lastUpdated ind) with false
    by (symmetry; apply Z.ltb_ge; lia).
  reflexivity.
Qed.

(** Stale or absent, with a cached one-month history: one recomputation
    from that history, stored and answered; upstream is not asked. *)
Lemma route_refresh_from_cached_history (param sym : string) (w : World N) :
  parseSymbol param = Some sym ->
  isStale (getTechnicalIndicators sym (store w)) now 300000 = true ->
  getHistoricalPrices sym "1M" (store w) <> [] ->
  let snap :=
    calculateTechnicalIndicators now
      (getHistoricalPrices sym "1M" (store w)) sym in
  route param w
  = (Json snap,
     {| store := setTechnicalIndicators snap (store w);
        log := log w ++ [Computed sym] |}).
Proof.
  intros Hparse Hstale Hcached snap. unfold technicalRoute. rewrite Hparse.
  unfold bind, reads, ret. rewrite Hstale.
  replace (JsArray.len (getHistoricalPrices sym "1M" (store w)) =? 0)
    with false.
  2:{ symmetry. apply not_true_is_false. rewrite len_zero_iff_nil.
      exact Hcached. }
  reflexivity.
Qed.

(** Stale or absent, no cached history, and upstream answers bars: one
    fetch, the bars stored, one recomputation, stored and answered. *)
Lemma route_refresh_from_upstream (param sym : string) (w : World N) :
  parseSymbol param = Some sym ->
  isStale (getTechnicalIndicators sym (store w)) now 300000 = true ->
  getHistoricalPrices sym "1M" (store w) = [] ->
  upstream sym "1M" <> [] ->
  let snap := calculateTechnicalIndicators now (upstream sym "1M") sym in
  route param w
  = (Json snap,
     {| store :=
          setTechnicalIndicators snap
            (setHistoricalPrices sym "1M" (upstream sym "1M") (store w));
        log := log w ++ [Fetched sym "1M"; Computed sym] |}).
Proof.
  intros Hparse Hstale Hcached Hfresh snap.
  unfold technicalRoute. rewrite Hparse.
  unfold bind, reads, ret. rewrite Hstale, Hcached. simpl.
  apply len_positive_iff_cons in Hfresh. rewrite Hfresh. simpl.
  rewrite <- app_assoc. reflexivity.
Qed.

(** Stale or absent, and no bars anywhere: upstream is asked once, nothing
    is computed or stored, and the answer is the old entry if there is one
    and 404 otherwise. *)
Lemma route_without_bars (param sym : string) (w : World N) :
  parseSymbol param = Some sym ->
  isStale (getTechnicalIndicators sym (store w)) now 300000 = true ->
  getHistoricalPrices sym "1M" (store w) = [] ->
  upstream sym "1M" = [] ->
  route param w
  = (match getTechnicalIndicators sym (store w) with
     | Some old => Json old
     | None => Error 404 "Technical indicators not available"
     end,
     {| store := store w; log := log w ++ [Fetched sym "1M"] |}).
Proof.
  intros Hparse Hstale Hcached Hfresh.
  unfold technicalRoute. rewrite Hparse.
  unfold bind, reads, ret. rewrite Hstale, Hcached. simpl.
  rewrite Hfresh. simpl.
  destruct (getTechnicalIndicators sym (store w)); reflexivity.
Qed.

End RouteFacts.

Lemma new_events_app {N} (w : World N) (st : MemStorage N)
    (evs : list Event) :
  new_events w {| store := st; log := log w ++ evs |} = evs.
Proof. unfold new_events. simpl. apply drop_app_length. Qed.

(** The three cases of a request, whatever [getHistoricalPrices] answers:
    a hit; a refresh when there are bars, from the cached one-month history
    or from upstream; and, with no bars anywhere, no recomputation. *)
Lemma technical_route_cases {N} `{JsNumber N}
    (parseSymbol : string -> option string)
    (upstream : string -> string -> list (HistoricalPrice N))
    (now : Z) (param sym : string) (w : World N) :
  parseSymbol param = Some sym ->
  let entry := getTechnicalIndicators sym (store w) in
  let cached := getHistoricalPrices sym "1M" (store w) in
  let bars := if JsArray.len cached =? 0 then upstream sym "1M" else cached in
  let snap := calculateTechnicalIndicators now bars sym in
  let result := technicalRoute parseSymbol upstream now param w in
  (forall ind,
     entry = Some ind -> now - ind.(lastUpdated) <= 300000 ->
     result = (Json ind, w))
  /\ (isStale entry now 300000 = true -> bars <> [] ->
      result.1 = Json snap
      /\ getTechnicalIndicators sym (store result.2) = Some snap
      /\ recomputations (new_events w result.2) = 1%nat
      /\ fetches (new_events w result.2)
         = (if JsArray.len cached =? 0 then 1%nat else 0%nat))
  /\ (isStale entry now 300000 = true -> bars = [] ->
      result.1 = match entry with
                 | Some old => Json old
                 | None => Error 404 "Technical indicators not available"
                 end
      /\ store result.2 = store w
      /\ recomputations (new_events w result.2) = 0%nat
      /\ fetches (new_events w result.2) = 1%nat).
Proof.
  intros Hparse entry cached bars snap result.
  split; [|split].
  - intros ind Hget Hage. eapply route_hit; eassumption.
  - intros Hstale Hbars. subst result snap bars.
    destruct (JsArray.len cached =? 0) eqn:Hlen.
    + apply len_zero_iff_nil in Hlen.
      rewrite (route_refresh_from_upstream _ _ _ _ _ _ Hparse Hstale Hlen Hbars).
      simpl. rewrite new_events_app.
      repeat split. apply (get_after_set _ (calculateTechnicalIndicators now _ sym)).
    + rewrite (route_refresh_from_cached_history _ _ _ _ _ _ Hparse Hstale Hbars).
      simpl. rewrite new_events_app.
      repeat split. apply (get_after_set _ (calculateTechnicalIndicators now _ sym)).
  - intros Hstale Hbars. subst result bars.
    destruct (JsArray.len cached =? 0) eqn:Hlen.
    + apply len_zero_iff_nil in Hlen.
      rewrite (route_without_bars _ _ _ _ _ _ Hparse Hstale Hlen Hbars).
      simpl. rewrite new_events_app. repeat split.
    + exfalso. apply not_true_iff_false in Hlen. apply Hlen.
      apply len_zero_iff_nil. exact Hbars.
Qed.

(** ** Further scenarios, in doubles *)

(** Eleven rising closes are fewer than 15: the RSI is the neutral 50. *)
Example rsi_of_eleven_closes :
  calculateRSI (N:=float)
    (map of_Z [10; 11; 12; 13; 14; 15; 16; 17; 18; 19; 20]) 14 = of_Z 50.
Proof. vm_compute. reflexivity. Qed.

(** Sixteen strictly rising closes give 100, sixteen falling ones 0. *)
Example rsi_of_rising_and_falling_closes :
  calculateRSI (N:=float)
    (map of_Z [0; 1; 2; 3; 4; 5; 6; 7; 8; 9; 10; 11; 12; 13; 14; 15]) 14
  = of_Z 100
  /\ calculateRSI (N:=float)
       (map of_Z [15; 14; 13; 12; 11; 10; 9; 8; 7; 6; 5; 4; 3; 2; 1; 0]) 14
     = of_Z 0.
Proof. split; vm_compute; reflexivity. Qed.

(** A period longer than the series: the mean of the entire series. *)
Example sma_of_short_series :
  calculateSMA (N:=float) (map of_Z [1; 2; 3]) 20 = of_Z 2.
Proof. vm_compute. reflexivity. Qed.

(** [calculateEMA] is sensitive to the order of the closes. *)
Example ema_of_reversed_series :
  calculateEMA (N:=float) (map of_Z [1; 2]) 12
  <> calculateEMA (N:=float) (map of_Z [2; 1]) 12.
Proof. intros Heq. floats_differ Heq. Qed.

(** * The rest of the server code: properties *)

(** ** The store *)

Section StoreFacts.
Context {N : Type}.
Implicit Types (st : MemStorage N) (v : TechnicalIndicators N).
Implicit Types (prices : list (HistoricalPrice N)).

Lemma history_get_after_set st (sym tf : string) prices :
  getHistoricalPrices sym tf (setHistoricalPrices sym tf prices st) = prices.
Proof.
  unfold getHistoricalPrices, setHistoricalPrices. simpl.
  rewrite lookup_insert_eq, lookup_insert_eq. reflexivity.
Qed.

Lemma history_get_other_after_set st (sym tf sym' tf' : string) prices :
  (sym', tf') <> (sym, tf) ->
  getHistoricalPrices sym' tf' (setHistoricalPrices sym tf prices st)
  = getHistoricalPrices sym' tf' st.
Proof.
  intros Hne. unfold getHistoricalPrices, setHistoricalPrices. simpl.
  destruct (decide (sym' = sym)) as [->|Hsym].
  - rewrite lookup_insert_eq.
    assert (Htf : tf' <> tf) by congruence.
    rewrite lookup_insert_ne by congruence.
    destruct (historicalPrices st !! sym); reflexivity.
  - rewrite lookup_insert_ne by congruence. reflexivity.
Qed.

Lemma indicators_untouched_by_history st (sym tf k : string) prices :
  getTechnicalIndicators k (setHistoricalPrices sym tf prices st)
  = getTechnicalIndicators k st.
Proof. reflexivity. Qed.

Lemma history_untouched_by_indicators st v (sym tf : string) :
  getHistoricalPrices sym tf (setTechnicalIndicators v st)
  = getHistoricalPrices sym tf st.
Proof. reflexivity. Qed.

(** X1. A history set for a symbol and timeframe is what the next get for
    them returns, whole; every other symbol or timeframe reads as before,
    and so does every snapshot. A store that was never written to answers
    the empty list. *)
Theorem history_set_then_get st (sym tf sym' tf' k : string) prices :
  (sym', tf') <> (sym, tf) ->
  let st' := setHistoricalPrices sym tf prices st in
  getHistoricalPrices sym tf st' = prices
  /\ getHistoricalPrices sym' tf' st' = getHistoricalPrices sym' tf' st
  /\ getTechnicalIndicators k st' = getTechnicalIndicators k st
  /\ getHistoricalPrices sym tf (MemStorage_new (N:=N)) = [].
Proof.
  intros Hne st'. subst st'.
  split; [apply history_get_after_set|].
  split; [apply history_get_other_after_set; exact Hne|].
  split; reflexivity.
Qed.

Lemma set_indicators_twice st v1 v2 :
  v1.(symbol) = v2.(symbol) ->
  setTechnicalIndicators v2 (setTechnicalIndicators v1 st)
  = setTechnicalIndicators v2 st.
Proof.
  intros Hsym. unfold setTechnicalIndicators. simpl. f_equal.
  rewrite Hsym. apply insert_insert_eq.
Qed.

(** X2. Of two snapshots set for the same symbol the later one wins and
    nothing of the earlier is left: the store is the one that setting the
    later alone gives. Setting a snapshot changes the entry of no other
    symbol and no history. *)
Theorem indicators_last_write_wins st v1 v2 (k sym tf : string) :
  v1.(symbol) = v2.(symbol) -> k <> v2.(symbol) ->
  setTechnicalIndicators v2 (setTechnicalIndicators v1 st)
  = setTechnicalIndicators v2 st
  /\ getTechnicalIndicators k (setTechnicalIndicators v2 st)
     = getTechnicalIndicators k st
  /\ getHistoricalPrices sym tf (setTechnicalIndicators v2 st)
     = getHistoricalPrices sym tf st.
Proof.
  intros Hsym Hk.
  split; [apply set_indicators_twice; exact Hsym|].
  split; [apply get_other_after_set; exact Hk|reflexivity].
Qed.

End StoreFacts.

Lemma history_set_then_get_witness :
  let st := MemStorage_new (N:=float) in
  let st' := setHistoricalPrices "TCS" "1M" [bar (of_Z 100)] st in
  ("TCS", "1W") <> ("TCS", "1M")
  /\ getHistoricalPrices "TCS" "1M" st' = [bar (of_Z 100)]
  /\ getHistoricalPrices "TCS" "1W" st' = getHistoricalPrices "TCS" "1W" st
  /\ getTechnicalIndicators "TCS" st' = getTechnicalIndicators "TCS" st
  /\ getHistoricalPrices "TCS" "1M" (MemStorage_new (N:=float)) = [].
Proof.
  cbv zeta. split; [discriminate|].
  apply (history_set_then_get (MemStorage_new (N:=float))
           "TCS" "1M" "TCS" "1W" "TCS" [bar (of_Z 100)]).
  discriminate.
Defined.

Lemma indicators_last_write_wins_witness :
  let st := MemStorage_new (N:=float) in
  let v1 := empty_snapshot (N:=float) 0 "TCS" in
  let v2 := empty_snapshot (N:=float) 5 "TCS" in
  symbol v1 = symbol v2
  /\ "INFY" <> symbol v2
  /\ setTechnicalIndicators v2 (setTechnicalIndicators v1 st)
     = setTechnicalIndicators v2 st
  /\ getTechnicalIndicators "INFY" (setTechnicalIndicators v2 st)
     = getTechnicalIndicators "INFY" st
  /\ getHistoricalPrices "TCS" "1M" (setTechnicalIndicators v2 st)
     = getHistoricalPrices "TCS" "1M" st.
Proof.
  cbv zeta. split; [reflexivity|]. split; [discriminate|].
  apply (indicators_last_write_wins (MemStorage_new (N:=float))
           (empty_snapshot (N:=float) 0 "TCS")
           (empty_snapshot (N:=float) 5 "TCS") "INFY" "TCS" "1M");
    [reflexivity|discriminate].
Defined.

(** ** The history route *)

Lemma timeframeSchema_parse_Some (s tf : string) :
  timeframeSchema_parse s = Some tf ->
  tf = s /\ s ∈ ["1D"; "1W"; "1M"; "3M"; "6M"; "1Y"].
Proof.
  unfold timeframeSchema_parse. case_bool_decide as Hin; [|discriminate].
  intros Heq. injection Heq as <-. split; [reflexivity|exact Hin].
Qed.

Section HistoryRouteFacts.
Context {N : Type}.
Variable parseSymbol : string -> option string.
Variable upstream : string -> string -> list (HistoricalPrice N).

Abbreviation hroute := (historyRoute parseSymbol upstream).

Lemma history_route_bad_timeframe (sp tp sym : string) (w : World N) :
  parseSymbol sp = Some sym -> timeframeSchema_parse tp = None ->
  hroute sp tp w = (HistoryError 400 "Invalid parameters", w).
Proof.
  intros Hsym Htf. unfold historyRoute. rewrite Hsym, Htf. reflexivity.
Qed.

Lemma history_route_hit (sp tp sym : string) (w : World N) :
  parseSymbol sp = Some sym -> timeframeSchema_parse tp = Some tp ->
  getHistoricalPrices sym tp (store w) <> [] ->
  hroute sp tp w = (HistoryJson (getHistoricalPrices sym tp (store w)), w).
Proof.
  intros Hsym Htf Hcached. unfold historyRoute. rewrite Hsym, Htf.
  unfold bind, reads, ret.
  replace (JsArray.len (getHistoricalPrices sym tp (store w)) =? 0)
    with false.
  2:{ symmetry. apply not_true_is_false. rewrite len_zero_iff_nil.
      exact Hcached. }
  reflexivity.
Qed.

Lemma history_route_fetch (sp tp sym : string) (w : World N) :
  parseSymbol sp = Some sym -> timeframeSchema_parse tp = Some tp ->
  getHistoricalPrices sym tp (store w) = [] ->
  upstream sym tp <> [] ->
  hroute sp tp w
  = (HistoryJson (upstream sym tp),
     {| store := setHistoricalPrices sym tp (upstream sym tp) (store w);
        log := log w ++ [Fetched sym tp] |}).
Proof.
  intros Hsym Htf Hcached Hfresh. unfold historyRoute. rewrite Hsym, Htf.
  unfold bind, reads, ret. rewrite Hcached. simpl.
  apply len_positive_iff_cons in Hfresh. rewrite Hfresh. reflexivity.
Qed.

Lemma history_route_no_data (sp tp sym : string) (w : World N) :
  parseSymbol sp = Some sym -> timeframeSchema_parse tp = Some tp ->
  getHistoricalPrices sym tp (store w) = [] ->
  upstream sym tp = [] ->
  hroute sp tp w
  = (HistoryJson [],
     {| store := store w; log := log w ++ [Fetched sym tp] |}).
Proof.
  intros Hsym Htf Hcached Hfresh. unfold historyRoute. rewrite Hsym, Htf.
  unfold bind, reads, ret. rewrite Hcached. simpl.
  rewrite Hfresh. reflexivity.
Qed.

(** X3. The history route answers 400 for a timeframe outside the six of
    the schema and touches nothing. For a valid one, a cached history is
    answered as it is, with no fetch and no write, however old it is; with
    none cached, upstream is asked once, and its answer is sent to the
    client and stored only if it is not empty. *)
Theorem history_route_policy (sp tp sym : string) (w : World N) :
  parseSymbol sp = Some sym ->
  let result := hroute sp tp w in
  let cached := getHistoricalPrices sym tp (store w) in
  let fresh := upstream sym tp in
  (timeframeSchema_parse tp = None ->
   result = (HistoryError 400 "Invalid parameters", w))
  /\ (timeframeSchema_parse tp = Some tp -> cached <> [] ->
      result = (HistoryJson cached, w))
  /\ (timeframeSchema_parse tp = Some tp -> cached = [] ->
      result.1 = HistoryJson fresh
      /\ log result.2 = log w ++ [Fetched sym tp]
      /\ store result.2
         = (if 0 <? JsArray.len fresh
            then setHistoricalPrices sym tp fresh (store w)
            else store w)).
Proof.
  intros Hsym result cached fresh. subst result cached fresh.
  split; [apply (history_route_bad_timeframe sp tp sym); exact Hsym|].
  split; [apply (history_route_hit sp tp sym); exact Hsym|].
  intros Htf Hcached.
  destruct (upstream sym tp) as [|b bs] eqn:Hfresh.
  - rewrite (history_route_no_data sp tp sym w Hsym Htf Hcached Hfresh).
    repeat split.
  - assert (Hne : upstream sym tp <> []) by (rewrite Hfresh; discriminate).
    rewrite (history_route_fetch sp tp sym w Hsym Htf Hcached Hne).
    rewrite Hfresh. repeat split.
Qed.

End HistoryRouteFacts.

Lemma history_route_policy_witness :
  let w := {| store := MemStorage_new (N:=float); log := [] |} in
  let result := historyRoute Some one_bar "TCS" "1M" w in
  Some "TCS" = Some "TCS"
  /\ timeframeSchema_parse "1M" = Some "1M"
  /\ getHistoricalPrices "TCS" "1M" (store w) = []
  /\ result.1 = HistoryJson (one_bar "TCS" "1M")
  /\ log result.2 = log w ++ [Fetched "TCS" "1M"]
  /\ store result.2
     = (if 0 <? JsArray.len (one_bar "TCS" "1M")
        then setHistoricalPrices "TCS" "1M" (one_bar "TCS" "1M") (store w)
        else store w).
Proof.
  cbv zeta. split; [reflexivity|]. split; [reflexivity|].
  split; [reflexivity|].
  apply (history_route_policy Some one_bar "TCS" "1M" "TCS"
           {| store := MemStorage_new (N:=float); log := [] |} eq_refl);
    reflexivity.
Defined.

(** ** What the two routes keep and how they compose *)

Section Invariants.
Context {N : Type}.
Implicit Types (st : MemStorage N).

Lemma new_store_invariants :
  histories_nonempty (MemStorage_new (N:=N))
  /\ keyed_by_symbol (MemStorage_new (N:=N)).
Proof.
  split.
  - intros sym symbolData tf prices Hsym. simpl in Hsym.
    rewrite lookup_empty in Hsym. discriminate.
  - intros k v Hget. unfold getTechnicalIndicators in Hget. simpl in Hget.
    rewrite lookup_empty in Hget. discriminate.
Qed.

Lemma histories_nonempty_set_history st (sym tf : string)
    (prices : list (HistoricalPrice N)) :
  histories_nonempty st -> prices <> [] ->
  histories_nonempty (setHistoricalPrices sym tf prices st).
Proof.
  intros Hinv Hne sym' symbolData tf' prices' Hsym Htf. simpl in Hsym.
  destruct (decide (sym' = sym)) as [->|Hother].
  - rewrite lookup_insert_eq in Hsym. injection Hsym as <-.
    destruct (decide (tf' = tf)) as [->|Htf'].
    + rewrite lookup_insert_eq in Htf. injection Htf as <-. exact Hne.
    + rewrite lookup_insert_ne in Htf by congruence.
      destruct (historicalPrices st !! sym) as [old|] eqn:Hold.
      * exact (Hinv sym old tf' prices' Hold Htf).
      * simpl in Htf. rewrite lookup_empty in Htf. discriminate.
  - rewrite lookup_insert_ne in Hsym by congruence.
    exact (Hinv sym' symbolData tf' prices' Hsym Htf).
Qed.

Lemma keyed_by_symbol_set_indicators st (v : TechnicalIndicators N) :
  keyed_by_symbol st -> keyed_by_symbol (setTechnicalIndicators v st).
Proof.
  intros Hinv k v' Hget. unfold getTechnicalIndicators in Hget.
  simpl in Hget.
  destruct (decide (k = v.(symbol))) as [->|Hother].
  - rewrite lookup_insert_eq in Hget. injection Hget as <-. reflexivity.
  - rewrite lookup_insert_ne in Hget by congruence. exact (Hinv k v' Hget).
Qed.

End Invariants.

Section RouteInvariants.
Context {N : Type} `{JsNumber N}.
Variable parseSymbol : string -> option string.
Variable upstream : string -> string -> list (HistoricalPrice N).
Variable now : Z.

(** The store a request to the technical route leaves behind. *)
Lemma technical_route_store (param : string) (w : World N) :
  let st' := store (technicalRoute parseSymbol upstream now param w).2 in
  st' = store w
  \/ (exists v, st' = setTechnicalIndicators v (store w))
  \/ (exists v sym prices,
        prices <> []
        /\ st' = setTechnicalIndicators v
                   (setHistoricalPrices sym "1M" prices (store w))).
Proof.
  unfold technicalRoute.
  destruct (parseSymbol param) as [sym|]; [|left; reflexivity].
  unfold bind, reads, ret.
  destruct (isStale (getTechnicalIndicators sym (store w)) now 300000).
  2:{ simpl. destruct (getTechnicalIndicators sym (store w));
        left; reflexivity. }
  destruct (JsArray.len (getHistoricalPrices sym "1M" (store w)) =? 0).
  - simpl.
    destruct (0 <? JsArray.len (upstream sym "1M")) eqn:Hfresh.
    + right. right. simpl. eexists _, sym, (upstream sym "1M").
      split; [apply len_positive_iff_cons; exact Hfresh|reflexivity].
    + simpl. destruct (getTechnicalIndicators sym (store w));
        left; reflexivity.
  - right. left. simpl. eexists. reflexivity.
Qed.

Lemma history_route_store (sp tp : string) (w : World N) :
  let st' := store (historyRoute parseSymbol upstream sp tp w).2 in
  st' = store w
  \/ (exists sym tf prices,
        prices <> [] /\ st' = setHistoricalPrices sym tf prices (store w)).
Proof.
  unfold historyRoute.
  destruct (parseSymbol sp) as [sym|]; [|left; reflexivity].
  destruct (timeframeSchema_parse tp) as [tf|]; [|left; reflexivity].
  unfold bind, reads, ret.
  destruct (JsArray.len (getHistoricalPrices sym tf (store w)) =? 0);
    [|left; reflexivity].
  simpl. destruct (0 <? JsArray.len (upstream sym tf)) eqn:Hfresh.
  - right. simpl. exists sym, tf, (upstream sym tf).
    split; [apply len_positive_iff_cons; exact Hfresh|reflexivity].
  - left. reflexivity.
Qed.

(** X4. Whatever is requested, the technical route and the history route
    keep two invariants of the store, which the empty store has: no stored
    history is empty, and every snapshot is stored under its own symbol. *)
Theorem routes_keep_store_invariants (param sp tp : string) (w : World N) :
  histories_nonempty (store w) -> keyed_by_symbol (store w) ->
  (histories_nonempty
     (store (technicalRoute parseSymbol upstream now param w).2)
   /\ keyed_by_symbol
        (store (technicalRoute parseSymbol upstream now param w).2))
  /\ (histories_nonempty (store (historyRoute parseSymbol upstream sp tp w).2)
      /\ keyed_by_symbol
           (store (historyRoute parseSymbol upstream sp tp w).2))
  /\ (histories_nonempty (MemStorage_new (N:=N))
      /\ keyed_by_symbol (MemStorage_new (N:=N))).
Proof.
  intros Hhist Hkeys. split; [|split; [|apply new_store_invariants]].
  - destruct (technical_route_store param w)
      as [->|[[v ->]|(v & sym & prices & Hne & ->)]].
    + split; assumption.
    + split; [exact Hhist|]. apply keyed_by_symbol_set_indicators.
      exact Hkeys.
    + split.
      * apply (histories_nonempty_set_history (store w)); assumption.
      * apply keyed_by_symbol_set_indicators. exact Hkeys.
  - destruct (history_route_store sp tp w)
      as [->|(sym & tf & prices & Hne & ->)].
    + split; assumption.
    + split; [|exact Hkeys].
      apply histories_nonempty_set_history; assumption.
Qed.

End RouteInvariants.

Lemma routes_keep_store_invariants_witness :
  let w := {| store := MemStorage_new (N:=float); log := [] |} in
  histories_nonempty (store w)
  /\ keyed_by_symbol (store w)
  /\ (histories_nonempty (store (technicalRoute Some one_bar 0 "TCS" w).2)
      /\ keyed_by_symbol (store (technicalRoute Some one_bar 0 "TCS" w).2))
  /\ (histories_nonempty (store (historyRoute Some one_bar "TCS" "1M" w).2)
      /\ keyed_by_symbol (store (historyRoute Some one_bar "TCS" "1M" w).2))
  /\ (histories_nonempty (MemStorage_new (N:=float))
      /\ keyed_by_symbol (MemStorage_new (N:=float))).
Proof.
  cbv zeta.
  split; [apply new_store_invariants|].
  split; [apply new_store_invariants|].
  apply (routes_keep_store_invariants Some one_bar 0 "TCS" "TCS" "1M"
           {| store := MemStorage_new (N:=float); log := [] |});
    apply new_store_invariants.
Defined.

Section RouteComposition.
Context {N : Type} `{JsNumber N}.
Variable parseSymbol : string -> option string.

(** X5. Once the history route has fetched and cached one-month bars for a
    symbol, a request to the technical route whose snapshot is absent or
    stale computes the snapshot from exactly these bars: it asks upstream
    nothing, whatever upstream would answer by then. *)
Theorem history_then_technical
    (upstream later : string -> string -> list (HistoricalPrice N))
    (now : Z) (sp sym : string) (w : World N) :
  parseSymbol sp = Some sym ->
  getHistoricalPrices sym "1M" (store w) = [] ->
  upstream sym "1M" <> [] ->
  isStale (getTechnicalIndicators sym (store w)) now 300000 = true ->
  let w1 := (historyRoute parseSymbol upstream sp "1M" w).2 in
  let snap := calculateTechnicalIndicators now (upstream sym "1M") sym in
  technicalRoute parseSymbol later now sp w1
  = (Json snap,
     {| store := setTechnicalIndicators snap (store w1);
        log := log w ++ [Fetched sym "1M"; Computed sym] |}).
Proof.
  intros Hsym Hcached Hfresh Hstale w1 snap. subst w1 snap.
  rewrite (history_route_fetch parseSymbol upstream sp "1M" sym w
             Hsym eq_refl Hcached Hfresh).
  simpl snd.
  rewrite (route_refresh_from_cached_history parseSymbol later now sp sym).
  - simpl. rewrite history_get_after_set, <- app_assoc. reflexivity.
  - exact Hsym.
  - exact Hstale.
  - simpl. rewrite history_get_after_set. exact Hfresh.
Qed.

(** X6. After a request that recomputed the snapshot at time [now], a
    request for the same symbol made up to 300000 ms later is answered with
    the very same snapshot and changes nothing: it computes nothing,
    fetches nothing and writes nothing. *)
Theorem refresh_then_hit
    (upstream later : string -> string -> list (HistoricalPrice N))
    (now now' : Z) (sp sym : string) (w : World N) :
  parseSymbol sp = Some sym ->
  isStale (getTechnicalIndicators sym (store w)) now 300000 = true ->
  (if JsArray.len (getHistoricalPrices sym "1M" (store w)) =? 0
   then upstream sym "1M"
   else getHistoricalPrices sym "1M" (store w)) <> [] ->
  now' - now <= 300000 ->
  let first := technicalRoute parseSymbol upstream now sp w in
  technicalRoute parseSymbol later now' sp first.2 = first.
Proof.
  intros Hsym Hstale Hbars Hage first. subst first.
  destruct (JsArray.len (getHistoricalPrices sym "1M" (store w)) =? 0)
    eqn:Hlen.
  - apply len_zero_iff_nil in Hlen.
    rewrite (route_refresh_from_upstream parseSymbol upstream now sp sym w
               Hsym Hstale Hlen Hbars).
    cbv zeta. simpl snd.
    apply (route_hit parseSymbol later now' sp sym); [exact Hsym| |exact Hage].
    simpl.
    apply (get_after_set _ (calculateTechnicalIndicators now _ sym)).
  - rewrite (route_refresh_from_cached_history parseSymbol upstream now sp
               sym w Hsym Hstale Hbars).
    cbv zeta. simpl snd.
    apply (route_hit parseSymbol later now' sp sym); [exact Hsym| |exact Hage].
    simpl.
    apply (get_after_set _ (calculateTechnicalIndicators now _ sym)).
Qed.

Lemma same_indicators_any_clock (now now' : Z)
    (bars : list (HistoricalPrice N)) (sym : string) :
  same_indicators (calculateTechnicalIndicators now bars sym)
                  (calculateTechnicalIndicators now' bars sym).
Proof. repeat split. Qed.

(** One request, served while a one-month history is cached for [sym]:
    the history stays, the answer comes from it, and
    [getHistoricalPrices] is not called for [sym] and one month. *)
Lemma serve_frozen (sym : string) (bars : list (HistoricalPrice N))
    (request : Request N) (w : World N) :
  bars <> [] -> frozen sym bars (store w) ->
  let result := serve parseSymbol request w in
  frozen sym bars (store result.2)
  /\ answered_from parseSymbol sym bars request result.1
  /\ exists events,
       log result.2 = log w ++ events /\ Fetched sym "1M" ∉ events.
Proof.
  intros Hne [Hhist Hsnap] result. subst result.
  destruct request as [now upstream param|upstream sp tp]; simpl.
  - (* the technical route *)
    destruct (parseSymbol param) as [sym'|] eqn:Hparse.
    2:{ unfold technicalRoute. rewrite Hparse. simpl.
        split; [split; assumption|]. split; [discriminate|].
        exists []. rewrite app_nil_r. split; [reflexivity|set_solver]. }
    destruct (isStale (getTechnicalIndicators sym' (store w)) now 300000)
      eqn:Hstale.
    2:{ (* a hit *)
        destruct (getTechnicalIndicators sym' (store w)) as [ind|] eqn:Hget;
          [|discriminate Hstale].
        simpl in Hstale. apply Z.ltb_ge in Hstale.
        rewrite (route_hit parseSymbol upstream now param sym' w ind
                   Hparse Hget Hstale).
        simpl. split; [split; assumption|]. split.
        - intros Heq. injection Heq as ->. exists ind.
          split; [reflexivity|]. apply Hsnap. exact Hget.
        - exists []. rewrite app_nil_r. split; [reflexivity|set_solver]. }
    destruct (decide (sym' = sym)) as [->|Hother].
    + (* stale, the frozen symbol: recomputed from the cached history *)
      assert (Hcached : getHistoricalPrices sym "1M" (store w) <> [])
        by (rewrite Hhist; exact Hne).
      rewrite (route_refresh_from_cached_history parseSymbol upstream now
                 param sym w Hparse Hstale Hcached).
      cbv zeta. simpl. rewrite Hhist.
      split; [split|split].
      * rewrite history_untouched_by_indicators. exact Hhist.
      * intros snap Hget.
        rewrite (get_after_set _ (calculateTechnicalIndicators now bars sym))
          in Hget.
        injection Hget as <-. apply same_indicators_any_clock.
      * intros _. eexists. split; [reflexivity|].
        apply same_indicators_any_clock.
      * exists [Computed sym]. split; [reflexivity|].
        intros Hin. apply list_elem_of_singleton in Hin. discriminate Hin.
    + (* stale, another symbol *)
      assert (Hkeep : forall v st,
                symbol v = sym' ->
                getHistoricalPrices sym "1M" st = bars ->
                (forall snap, getTechnicalIndicators sym st = Some snap ->
                   same_indicators snap
                     (calculateTechnicalIndicators 0 bars sym)) ->
                frozen sym bars (setTechnicalIndicators v st)).
      { intros v st Hv Hh Hs. split.
        - rewrite history_untouched_by_indicators. exact Hh.
        - intros snap Hget. apply Hs.
          rewrite get_other_after_set in Hget; [exact Hget|].
          rewrite Hv. congruence. }
      destruct (JsArray.len (getHistoricalPrices sym' "1M" (store w)) =? 0)
        eqn:Hlen.
      * apply len_zero_iff_nil in Hlen.
        destruct (upstream sym' "1M") as [|b bs] eqn:Hfresh.
        -- rewrite (route_without_bars parseSymbol upstream now param sym' w
                      Hparse Hstale Hlen Hfresh).
           simpl. split; [split; assumption|]. split; [congruence|].
           exists [Fetched sym' "1M"]. split; [reflexivity|].
           intros Hin. apply list_elem_of_singleton in Hin. congruence.
        -- assert (Hbars : upstream sym' "1M" <> [])
             by (rewrite Hfresh; discriminate).
           rewrite (route_refresh_from_upstream parseSymbol upstream now
                      param sym' w Hparse Hstale Hlen Hbars).
           cbv zeta. simpl. split; [|split; [congruence|]].
           ++ apply Hkeep; [reflexivity| |].
              ** rewrite history_get_other_after_set by congruence.
                 exact Hhist.
              ** intros snap Hget.
                 rewrite indicators_untouched_by_history in Hget.
                 apply Hsnap. exact Hget.
           ++ exists [Fetched sym' "1M"; Computed sym'].
              split; [reflexivity|].
              intros Hin. apply elem_of_cons in Hin as [Hin|Hin];
                [congruence|].
              apply list_elem_of_singleton in Hin. discriminate Hin.
      * assert (Hcached : getHistoricalPrices sym' "1M" (store w) <> []).
        { intros Hnil. apply len_zero_iff_nil in Hnil. congruence. }
        rewrite (route_refresh_from_cached_history parseSymbol upstream now
                   param sym' w Hparse Hstale Hcached).
        cbv zeta. simpl. split; [|split; [congruence|]].
        -- apply Hkeep; [reflexivity|exact Hhist|exact Hsnap].
        -- exists [Computed sym']. split; [reflexivity|].
           intros Hin. apply list_elem_of_singleton in Hin. discriminate Hin.
  - (* the history route *)
    destruct (parseSymbol sp) as [sym'|] eqn:Hparse.
    2:{ unfold historyRoute. rewrite Hparse. simpl.
        split; [split; assumption|]. split; [discriminate|].
        exists []. rewrite app_nil_r. split; [reflexivity|set_solver]. }
    destruct (timeframeSchema_parse tp) as [tf|] eqn:Htf.
    2:{ rewrite (history_route_bad_timeframe parseSymbol upstream sp tp sym' w
                   Hparse Htf).
        simpl. split; [split; assumption|]. split.
        - intros _ ->. discriminate Htf.
        - exists []. rewrite app_nil_r. split; [reflexivity|set_solver]. }
    assert (tf = tp) as ->.
    { unfold timeframeSchema_parse in Htf.
      case_bool_decide; [|discriminate]. congruence. }
    destruct (getHistoricalPrices sym' tp (store w)) as [|c cs] eqn:Hcached.
    + (* nothing cached: another symbol or timeframe *)
      assert (Hkey : sym' <> sym \/ tp <> "1M").
      { destruct (decide (sym' = sym)) as [->|]; [|left; assumption].
        destruct (decide (tp = "1M")) as [->|]; [|right; assumption].
        congruence. }
      destruct (upstream sym' tp) as [|b bs] eqn:Hfresh.
      * rewrite (history_route_no_data parseSymbol upstream sp tp sym' w
                   Hparse Htf Hcached Hfresh).
        simpl. split; [split; assumption|]. split.
        -- intros Heq ->. injection Heq as ->. destruct Hkey; congruence.
        -- exists [Fetched sym' tp]. split; [reflexivity|].
           intros Hin. apply list_elem_of_singleton in Hin.
           injection Hin as Hs Ht. destruct Hkey; congruence.
      * assert (Hbars : upstream sym' tp <> [])
          by (rewrite Hfresh; discriminate).
        rewrite (history_route_fetch parseSymbol upstream sp tp sym' w
                   Hparse Htf Hcached Hbars).
        simpl. split; [split|split].
        -- rewrite history_get_other_after_set
             by (intros [= Hs Ht]; destruct Hkey; congruence).
           exact Hhist.
        -- intros snap Hget.
           rewrite indicators_untouched_by_history in Hget.
           apply Hsnap. exact Hget.
        -- intros Heq ->. injection Heq as ->. destruct Hkey; congruence.
        -- exists [Fetched sym' tp]. split; [reflexivity|].
           intros Hin. apply list_elem_of_singleton in Hin.
           injection Hin as Hs Ht. destruct Hkey; congruence.
    + assert (Hne' : getHistoricalPrices sym' tp (store w) <> [])
        by (rewrite Hcached; discriminate).
      rewrite (history_route_hit parseSymbol upstream sp tp sym' w
                 Hparse Htf Hne').
      simpl. split; [split; assumption|]. split.
      * intros Heq ->. injection Heq as ->. rewrite Hhist. reflexivity.
      * exists []. rewrite app_nil_r. split; [reflexivity|set_solver].
Qed.

Lemma serve_all_frozen (sym : string) (bars : list (HistoricalPrice N))
    (requests : list (Request N)) (w : World N) :
  bars <> [] -> frozen sym bars (store w) ->
  let result := serve_all parseSymbol requests w in
  frozen sym bars (store result.2)
  /\ Forall2 (answered_from parseSymbol sym bars) requests result.1
  /\ exists events,
       log result.2 = log w ++ events /\ Fetched sym "1M" ∉ events.
Proof.
  intros Hne. revert w.
  induction requests as [|request rest IH]; intros w Hfrozen; simpl.
  - split; [exact Hfrozen|]. split; [constructor|].
    exists []. rewrite app_nil_r. split; [reflexivity|set_solver].
  - destruct (serve_frozen sym bars request w Hne Hfrozen)
      as (Hfrozen1 & Hanswer & events1 & Hlog1 & Hno1).
    destruct (serve parseSymbol request w) as [answer w1]. simpl in *.
    destruct (IH w1 Hfrozen1) as (Hfrozen2 & Hanswers & events2 & Hlog2 & Hno2).
    destruct (serve_all parseSymbol rest w1) as [answers w2]. simpl in *.
    split; [exact Hfrozen2|]. split; [constructor; assumption|].
    exists (events1 ++ events2). split.
    + rewrite Hlog2, Hlog1, app_assoc. reflexivity.
    + intros Hin. apply elem_of_app in Hin as [Hin|Hin]; contradiction.
Qed.


End RouteComposition.

Lemma history_then_technical_witness :
  let w := {| store := MemStorage_new (N:=float); log := [] |} in
  let w1 := (historyRoute Some one_bar "TCS" "1M" w).2 in
  let snap := calculateTechnicalIndicators 0 (one_bar "TCS" "1M") "TCS" in
  Some "TCS" = Some "TCS"
  /\ getHistoricalPrices "TCS" "1M" (store w) = []
  /\ one_bar "TCS" "1M" <> []
  /\ isStale (getTechnicalIndicators "TCS" (store w)) 0 300000 = true
  /\ technicalRoute Some no_data 0 "TCS" w1
     = (Json snap,
        {| store := setTechnicalIndicators snap (store w1);
           log := log w ++ [Fetched "TCS" "1M"; Computed "TCS"] |}).
Proof.
  cbv zeta. split; [reflexivity|]. split; [reflexivity|].
  split; [discriminate|]. split; [reflexivity|].
  apply (history_then_technical Some one_bar no_data 0 "TCS" "TCS"
           {| store := MemStorage_new (N:=float); log := [] |});
    [reflexivity|reflexivity|discriminate|reflexivity].
Defined.

Lemma refresh_then_hit_witness :
  let first := technicalRoute Some one_bar 400000 "TCS" stale_world in
  Some "TCS" = Some "TCS"
  /\ isStale (getTechnicalIndicators "TCS" (store stale_world))
             400000 300000 = true
  /\ one_bar "TCS" "1M" <> []
  /\ 500000 - 400000 <= 300000
  /\ technicalRoute Some no_data 500000 "TCS" first.2 = first.
Proof.
  cbv zeta. split; [reflexivity|]. split; [reflexivity|].
  split; [discriminate|]. split; [lia|].
  apply (refresh_then_hit Some one_bar no_data 400000 500000 "TCS" "TCS"
           stale_world); [reflexivity|reflexivity|discriminate|lia].
Defined.


(** ** The schema of a stock symbol *)

(** No name of [Object.prototype] passes the schema: each holds a
    lower-case letter. *)
Lemma schema_symbol_not_inherited (s sym : string) :
  stockSymbolSchema_parse s = Some sym -> sym = s /\ sym ∉ Object_prototype.
Proof.
  unfold stockSymbolSchema_parse.
  destruct (_ && forallb symbol_char (String.list_ascii_of_string s)) eqn:Hok;
    [|discriminate].
  intros Heq. injection Heq as <-. split; [reflexivity|].
  intros Hin. unfold Object_prototype in Hin.
  repeat (apply elem_of_cons in Hin as [->|Hin];
          [vm_compute in Hok; discriminate Hok|]).
  apply elem_of_nil in Hin. exact Hin.
Qed.

Lemma param_symbol_not_inherited (param sym : string) :
  symbolParam_parse param = Some sym ->
  stockSymbolSchema_parse sym = Some sym /\ sym ∉ Object_prototype.
Proof.
  unfold symbolParam_parse. intros Hparse.
  destruct (schema_symbol_not_inherited _ _ Hparse) as [Heq Hnot].
  split; [|exact Hnot]. subst sym. exact Hparse.
Qed.

(** ** Generated history *)

Section GeneratorFacts.
Context {N : Type} `{JsNumber N} `{JsMath N}.
Variable random : nat -> N.
Variable isoDate : Z -> string.

Lemma getTimeframeDays_values (timeframe : string) :
  getTimeframeDays timeframe ∈ [1; 7; 30; 90; 180; 365].
Proof.
  unfold getTimeframeDays.
  repeat (match goal with
          | |- context [String.eqb ?a ?b] => destruct (String.eqb a b)
          end);
    set_solver.
Qed.

Lemma getTimeframeDays_bounds (timeframe : string) :
  1 <= getTimeframeDays timeframe <= 365.
Proof.
  pose proof (getTimeframeDays_values timeframe) as Hin.
  repeat (apply elem_of_cons in Hin as [->|Hin]; [lia|]).
  apply elem_of_nil in Hin. contradiction.
Qed.

Lemma generate_from_length (steps : nat) (i : Z) (basePrice : N)
    (drawn : nat) :
  length (generate_from random isoDate steps i basePrice drawn) = steps.
Proof.
  revert i basePrice drawn.
  induction steps as [|steps IH]; intros i basePrice drawn; simpl.
  - reflexivity.
  - rewrite IH. reflexivity.
Qed.

(** The unrounded close the loop carries into its next iteration. *)
Lemma generate_from_chain (steps : nat) (i : Z) (basePrice : N)
    (drawn k : nat) (b1 b2 : HistoricalPrice N) :
  generate_from random isoDate steps i basePrice drawn !! k = Some b1 ->
  generate_from random isoDate steps i basePrice drawn !! S k = Some b2 ->
  b2.(open) = b1.(close).
Proof.
  revert i basePrice drawn k.
  induction steps as [|steps IH]; intros i basePrice drawn k H1 H2.
  - simpl in H1. rewrite lookup_nil in H1. discriminate.
  - destruct k as [|k].
    + simpl in H1. injection H1 as <-.
      destruct steps as [|steps']; simpl in H2.
      * discriminate H2.
      * injection H2 as <-. reflexivity.
    + simpl in H1, H2. exact (IH _ _ _ _ H1 H2).
Qed.

(** The base price is a number exactly for the symbols that name nothing
    inherited. *)
Lemma base_price_number (sym : string) :
  sym ∉ Object_prototype ->
  getIndianBasePrice sym
  = Some (of_Z (default 1500 (table_get basePrices sym))).
Proof.
  intros Hnot. unfold getIndianBasePrice.
  destruct (table_get basePrices sym); [reflexivity|].
  rewrite bool_decide_eq_false_2 by exact Hnot. reflexivity.
Qed.

Lemma base_price_inherited (sym : string) :
  sym ∈ Object_prototype -> getIndianBasePrice (N:=N) sym = None.
Proof.
  intros Hin. unfold Object_prototype in Hin.
  repeat (apply elem_of_cons in Hin as [->|Hin]; [reflexivity|]).
  apply elem_of_nil in Hin. contradiction.
Qed.

Lemma generated_for_number (sym timeframe : string) :
  sym ∉ Object_prototype ->
  generateRealisticHistoricalData random isoDate sym timeframe
  = Normal (generate_from random isoDate
              (Z.to_nat (getTimeframeDays timeframe + 1))
              (getTimeframeDays timeframe)
              (of_Z (default 1500 (table_get basePrices sym))) 0).
Proof.
  intros Hnot. unfold generateRealisticHistoricalData.
  rewrite (base_price_number sym Hnot). reflexivity.
Qed.

Lemma generated_is_loop (sym timeframe : string)
    (bars : list (HistoricalPrice N)) :
  generateRealisticHistoricalData random isoDate sym timeframe = Normal bars ->
  exists basePrice,
    bars = generate_from random isoDate
             (Z.to_nat (getTimeframeDays timeframe + 1))
             (getTimeframeDays timeframe) basePrice 0.
Proof.
  unfold generateRealisticHistoricalData.
  destruct (getIndianBasePrice sym) as [basePrice|]; [|discriminate].
  intros Heq. injection Heq as <-. exists basePrice. reflexivity.
Qed.

(** X8. For a symbol that names a property every object inherits
    ([constructor], [toString], [__proto__], ...) the generator throws a
    [TypeError]. For every other symbol, and whatever the timeframe
    string, it returns [days + 1] bars, where [days] is 1, 7, 30, 90, 180
    or 365 (30 for an unknown timeframe): at least two bars, never none. *)
Theorem generated_history_shape (sym timeframe : string) :
  let generated :=
    generateRealisticHistoricalData random isoDate sym timeframe in
  let days := getTimeframeDays timeframe in
  days ∈ [1; 7; 30; 90; 180; 365]
  /\ (sym ∈ Object_prototype -> generated = TypeError)
  /\ (sym ∉ Object_prototype ->
      exists bars, generated = Normal bars
                   /\ JsArray.len bars = days + 1 /\ bars <> []).
Proof.
  intros generated days. subst generated days.
  pose proof (getTimeframeDays_bounds timeframe) as Hdays.
  split; [apply getTimeframeDays_values|]. split.
  - intros Hin. unfold generateRealisticHistoricalData.
    rewrite (base_price_inherited sym Hin). reflexivity.
  - intros Hnot. rewrite (generated_for_number sym timeframe Hnot).
    eexists. split; [reflexivity|].
    assert (Hlen : JsArray.len
                     (generate_from random isoDate
                        (Z.to_nat (getTimeframeDays timeframe + 1))
                        (getTimeframeDays timeframe)
                        (of_Z (default 1500 (table_get basePrices sym))) 0)
                   = getTimeframeDays timeframe + 1).
    { unfold JsArray.len. rewrite generate_from_length. lia. }
    split; [exact Hlen|].
    intros Hnil. rewrite Hnil in Hlen. unfold JsArray.len in Hlen.
    simpl in Hlen. lia.
Qed.

(** X9. A history the generator returns has a first and a second bar, and
    every bar after the first opens where the bar before it closed, to the
    cent. *)
Theorem generated_history_chained (sym timeframe : string)
    (bars : list (HistoricalPrice N)) :
  generateRealisticHistoricalData random isoDate sym timeframe = Normal bars ->
  (exists first second rest, bars = first :: second :: rest)
  /\ (forall k b1 b2,
        bars !! k = Some b1 -> bars !! S k = Some b2 ->
        b2.(open) = b1.(close)).
Proof.
  intros Hbars. destruct (generated_is_loop _ _ _ Hbars) as [basePrice ->].
  split.
  - pose proof (getTimeframeDays_bounds timeframe) as Hdays.
    destruct (Z.to_nat (getTimeframeDays timeframe + 1)) as [|[|steps]] eqn:Hs;
      [lia|lia|].
    simpl. eexists _, _, _. reflexivity.
  - intros k b1 b2. apply generate_from_chain.
Qed.

End GeneratorFacts.

Lemma generated_history_chained_witness :
  let bars :=
    generate_from (N:=float) (fun _ => of_Z 0) (fun _ => "") 2 1
      (of_Z 4200) 0 in
  generateRealisticHistoricalData (fun _ => of_Z 0) (fun _ => "") "TCS" "1D"
  = Normal bars
  /\ (exists first second rest, bars = first :: second :: rest)
  /\ (forall k b1 b2,
        bars !! k = Some b1 -> bars !! S k = Some b2 ->
        b2.(open) = b1.(close)).
Proof.
  cbv zeta.
  assert (Hbars :
    generateRealisticHistoricalData (fun _ => of_Z 0) (fun _ => "") "TCS" "1D"
    = Normal (generate_from (N:=float) (fun _ => of_Z 0) (fun _ => "") 2 1
                (of_Z 4200) 0)) by reflexivity.
  split; [exact Hbars|].
  apply (generated_history_chained (N:=float) (fun _ => of_Z 0) (fun _ => "")
           "TCS" "1D" _ Hbars).
Defined.

Lemma if_XFin (c : bool) (a b : R) :
  (if c then XFin a else XFin b) = XFin (if c then a else b).
Proof. destruct c; reflexivity. Qed.

Lemma lit_0_5_ideal : lit_0_5 = XFin (5 / 10).
Proof. unfold lit_0_5. simpl of_Z. apply div_of_reals. lra. Qed.

Lemma lit_0_02_ideal : lit_0_02 = XFin (2 / 100).
Proof. unfold lit_0_02. simpl of_Z. apply div_of_reals. lra. Qed.

Lemma generate_from_step {N} `{JsNumber N} `{JsMath N}
    (random : nat -> N) (isoDate : Z -> string)
    (steps : nat) (i : Z) (basePrice : N) (drawn : nat) :
  generate_from random isoDate (S steps) i basePrice drawn
  = (let close :=
       (basePrice + (random drawn - lit_0_5) * lit_0_02 * basePrice)%js in
     {| date := isoDate i;
        open := toFixed2 basePrice;
        high := toFixed2 (Math_max basePrice close
                          + random (drawn + 1)%nat * of_Z 2)%js;
        low := toFixed2 (Math_min basePrice close
                         - random (drawn + 2)%nat * of_Z 2)%js;
        close := toFixed2 close;
        volume := (Math_floor (random (drawn + 3)%nat * of_Z 50000000)
                   + of_Z 20000000)%js |}
     :: generate_from random isoDate steps (i - 1) close (drawn + 4)).
Proof. reflexivity. Qed.

Lemma generate_from_well_formed (random : nat -> xreal)
    (isoDate : Z -> string) (steps : nat) (i : Z) (base : R) (drawn : nat) :
  draws_in_unit_interval random ->
  Forall well_formed_bar
    (generate_from random isoDate steps i (XFin base) drawn).
Proof.
  intros Hdraws. revert i base drawn.
  induction steps as [|steps IH]; intros i base drawn; [constructor|].
  rewrite generate_from_step. cbv zeta.
  destruct (Hdraws drawn) as (r0 & -> & Hr0).
  destruct (Hdraws (drawn + 1)%nat) as (r1 & -> & Hr1).
  destruct (Hdraws (drawn + 2)%nat) as (r2 & -> & Hr2).
  destruct (Hdraws (drawn + 3)%nat) as (r3 & -> & Hr3).
  rewrite lit_0_5_ideal, lit_0_02_ideal.
  simpl sub. simpl mul. simpl add.
  set (close := (base + (r0 - 5 / 10) * (2 / 100) * base)%R).
  rewrite !if_XFin.
  set (hi := if bool_decide (base < close)%R then close else base).
  set (lo := if bool_decide (close < base)%R then close else base).
  assert (Hhi : (base <= hi)%R /\ (close <= hi)%R)
    by (unfold hi; case_bool_decide; lra).
  assert (Hlo : (lo <= base)%R /\ (lo <= close)%R)
    by (unfold lo; case_bool_decide; lra).
  clearbody hi lo. destruct Hhi as [Hhi1 Hhi2]. destruct Hlo as [Hlo1 Hlo2].
  simpl add. simpl sub.
  constructor; [|apply IH].
  exists (fix2 (lo - r2 * 2)), (fix2 base), (fix2 close),
         (fix2 (hi + r1 * 2)), (Int_part (r3 * 50000000) + 20000000).
  simpl. rewrite <- !toFixed2_fin.
  split; [reflexivity|]. split; [reflexivity|]. split; [reflexivity|].
  split; [reflexivity|].
  split; [rewrite plus_IZR; reflexivity|].
  split; [split; apply fix2_mono; lra|].
  split; [split; apply fix2_mono; lra|].
  pose proof (Int_part_bounds (r3 * 50000000)) as [Hfl Hfu].
  assert (Hlow : (-1 < Int_part (r3 * 50000000))%Z).
  { apply lt_IZR. lra. }
  assert (Hup : (Int_part (r3 * 50000000) < 50000000)%Z).
  { apply lt_IZR. lra. }
  lia.
Qed.

(** X10. Computed in exact arithmetic with every [Math.random()] in
    [0, 1), each bar of a history the generator returns is well formed:
    its low is at or below its open and its close, its high at or above
    them (rounding to cents keeps the order), and its volume is a whole
    number from 20000000 up to, but not including, 70000000. The
    generator returns such a history for every symbol but the names of
    [Object.prototype]. *)
Theorem generated_bars_well_formed (random : nat -> xreal)
    (isoDate : Z -> string) (sym timeframe : string) :
  draws_in_unit_interval random ->
  match generateRealisticHistoricalData random isoDate sym timeframe with
  | Normal bars => Forall well_formed_bar bars
  | TypeError => sym ∈ Object_prototype
  end.
Proof.
  intros Hdraws. unfold generateRealisticHistoricalData, getIndianBasePrice.
  destruct (table_get basePrices sym) as [price|].
  - apply generate_from_well_formed. exact Hdraws.
  - case_bool_decide as Hin; [exact Hin|].
    apply generate_from_well_formed. exact Hdraws.
Qed.

Lemma generated_bars_well_formed_witness :
  draws_in_unit_interval (fun _ => XFin (1 / 4))
  /\ exists bars,
       generateRealisticHistoricalData (fun _ => XFin (1 / 4))
         (fun _ => "") "TCS" "1W" = Normal bars
       /\ bars <> []
       /\ Forall well_formed_bar bars.
Proof.
  assert (Hdraws : draws_in_unit_interval (fun _ => XFin (1 / 4))).
  { intros k. exists (1 / 4)%R. split; [reflexivity|lra]. }
  split; [exact Hdraws|].
  pose proof (generated_bars_well_formed (fun _ => XFin (1 / 4))
                (fun _ => "") "TCS" "1W" Hdraws) as Hbars.
  change (generateRealisticHistoricalData (fun _ => XFin (1 / 4))
            (fun _ => "") "TCS" "1W")
    with (Normal (generate_from (fun _ => XFin (1 / 4)) (fun _ => "")
                    8 7 (XFin 4200) 0)) in Hbars |- *.
  eexists. split; [reflexivity|]. split; [discriminate|exact Hbars].
Defined.

(** ** The history service *)

Section ServiceHistory.
Context {N : Type} `{JsNumber N} `{JsMath N}.
Variable random : nat -> N.
Variable isoDate : Z -> string.
Variable yahoo : string -> string -> list (HistoricalPrice N).

Abbreviation service :=
  (StockService_getHistoricalPrices random isoDate yahoo).

Lemma service_answers_yahoo (sym timeframe : string) :
  yahoo sym timeframe <> [] ->
  service sym timeframe = Normal (yahoo sym timeframe).
Proof.
  intros Hy. unfold StockService_getHistoricalPrices.
  apply len_positive_iff_cons in Hy. rewrite Hy. reflexivity.
Qed.

Lemma service_generates (sym timeframe : string) :
  yahoo sym timeframe = [] ->
  service sym timeframe
  = generateRealisticHistoricalData random isoDate sym timeframe.
Proof.
  intros Hy. unfold StockService_getHistoricalPrices. rewrite Hy.
  simpl.
  destruct (generateRealisticHistoricalData random isoDate sym timeframe);
    reflexivity.
Qed.

Lemma service_returns (sym timeframe : string) :
  sym ∉ Object_prototype ->
  exists bars,
    service sym timeframe = Normal bars
    /\ bars <> []
    /\ (yahoo sym timeframe <> [] -> bars = yahoo sym timeframe)
    /\ (yahoo sym timeframe = [] ->
        JsArray.len bars = getTimeframeDays timeframe + 1).
Proof.
  intros Hnot.
  destruct (yahoo sym timeframe) as [|b bs] eqn:Hy.
  - destruct (generated_history_shape random isoDate sym timeframe)
      as (_ & _ & Hgen).
    destruct (Hgen Hnot) as (bars & Hbars & Hlen & Hne).
    exists bars. rewrite (service_generates sym timeframe Hy).
    split; [exact Hbars|]. split; [exact Hne|].
    split; [congruence|]. intros _. exact Hlen.
  - exists (b :: bs).
    assert (Hne : yahoo sym timeframe <> []) by (rewrite Hy; discriminate).
    rewrite (service_answers_yahoo sym timeframe Hne), Hy.
    split; [reflexivity|]. split; [discriminate|].
    split; [reflexivity|]. discriminate.
Qed.

(** X11. For every symbol the schema lets through,
    [StockService.getHistoricalPrices] returns, and never the empty list:
    Yahoo's bars when there are any, and otherwise the [days + 1]
    generated ones. For a name of [Object.prototype], which the schema
    lets through in no case, it throws a [TypeError] when Yahoo has no
    bars. *)
Theorem service_history_never_empty (sym timeframe : string) :
  (stockSymbolSchema_parse sym = Some sym ->
   exists bars,
     service sym timeframe = Normal bars
     /\ bars <> []
     /\ (yahoo sym timeframe <> [] -> bars = yahoo sym timeframe)
     /\ (yahoo sym timeframe = [] ->
         JsArray.len bars = getTimeframeDays timeframe + 1))
  /\ (sym ∈ Object_prototype ->
      stockSymbolSchema_parse sym = None
      /\ (yahoo sym timeframe = [] -> service sym timeframe = TypeError)).
Proof.
  split.
  - intros Hok. apply service_returns.
    apply (schema_symbol_not_inherited sym sym Hok).
  - intros Hin. split.
    + destruct (stockSymbolSchema_parse sym) as [s|] eqn:Hparse;
        [|reflexivity].
      destruct (schema_symbol_not_inherited _ _ Hparse) as [-> Hnot].
      contradiction.
    + intros Hy. rewrite (service_generates sym timeframe Hy).
      destruct (generated_history_shape random isoDate sym timeframe)
        as (_ & Hthrows & _).
      exact (Hthrows Hin).
Qed.

End ServiceHistory.

(** ** C7 *)

(** C7. A request whose symbol has a cached snapshot at most 300000 ms old
    is answered with that snapshot and leaves the world as it was: no
    recomputation, no upstream fetch, no write. A request whose snapshot is
    absent or older recomputes exactly once, from the cached one-month
    history or, when there is none, from the bars
    [StockService.getHistoricalPrices] returns, which are never none for a
    symbol of the schema; it stores the result and answers it. *)
Theorem technical_route_cache_policy {N} `{JsNumber N} `{JsMath N}
    (random : nat -> N) (isoDate : Z -> string)
    (yahoo upstream : string -> string -> list (HistoricalPrice N))
    (now : Z) (param sym : string) (w : World N) :
  symbolParam_parse param = Some sym ->
  StockService_getHistoricalPrices random isoDate yahoo sym "1M"
  = Normal (upstream sym "1M") ->
  let entry := getTechnicalIndicators sym (store w) in
  let cached := getHistoricalPrices sym "1M" (store w) in
  let bars := if JsArray.len cached =? 0 then upstream sym "1M" else cached in
  let snap := calculateTechnicalIndicators now bars sym in
  let result := technicalRoute symbolParam_parse upstream now param w in
  (forall ind,
     entry = Some ind -> now - ind.(lastUpdated) <= 300000 ->
     result = (Json ind, w))
  /\ (isStale entry now 300000 = true ->
      result.1 = Json snap
      /\ getTechnicalIndicators sym (store result.2) = Some snap
      /\ recomputations (new_events w result.2) = 1%nat
      /\ fetches (new_events w result.2)
         = (if JsArray.len cached =? 0 then 1%nat else 0%nat)).
Proof.
  intros Hparse Hservice entry cached bars snap result.
  destruct (technical_route_cases symbolParam_parse upstream now param sym w
              Hparse) as (Hhit & Hrefresh & _).
  split; [exact Hhit|].
  intros Hstale. apply Hrefresh; [exact Hstale|].
  fold cached. destruct (JsArray.len cached =? 0) eqn:Hlen.
  - destruct (param_symbol_not_inherited _ _ Hparse) as [_ Hnot].
    destruct (service_returns random isoDate yahoo sym "1M" Hnot)
      as (fresh & Hfresh & Hne & _).
    rewrite Hservice in Hfresh. injection Hfresh as <-. exact Hne.
  - intros Hnil. apply len_zero_iff_nil in Hnil. congruence.
Qed.

Lemma technical_route_cache_policy_witness :
  let service :=
    StockService_getHistoricalPrices (N:=float) (fun _ => of_Z 0)
      (fun _ => "") no_data in
  let upstream := fun sym timeframe => bars_of (service sym timeframe) in
  let result := technicalRoute symbolParam_parse upstream 400000 "tcs"
                  stale_world in
  let snap := calculateTechnicalIndicators 400000 (upstream "TCS" "1M")
                "TCS" in
  symbolParam_parse "tcs" = Some "TCS"
  /\ service "TCS" "1M" = Normal (upstream "TCS" "1M")
  /\ isStale (getTechnicalIndicators "TCS" (store stale_world))
             400000 300000 = true
  /\ result.1 = Json snap
  /\ getTechnicalIndicators "TCS" (store result.2) = Some snap
  /\ recomputations (new_events stale_world result.2) = 1%nat
  /\ fetches (new_events stale_world result.2) = 1%nat.
Proof.
  cbv zeta. split; [reflexivity|]. split; [reflexivity|].
  split; [reflexivity|].
  apply (technical_route_cache_policy (N:=float) (fun _ => of_Z 0)
           (fun _ => "") no_data
           (fun sym timeframe =>
              bars_of (StockService_getHistoricalPrices (N:=float)
                         (fun _ => of_Z 0) (fun _ => "") no_data
                         sym timeframe))
           400000 "tcs" "TCS" stale_world eq_refl eq_refl).
  reflexivity.
Defined.

(** ** Moving averages *)

Section MovingAverageFacts.
Context {N : Type} `{JsNumber N}.

Lemma calculateSMA_clamped (closes : list N) (period : Z) :
  JsArray.len closes <= period ->
  calculateSMA closes period = calculateSMA closes (JsArray.len closes).
Proof.
  intros Hlen. unfold calculateSMA.
  rewrite (Z.ltb_irrefl (JsArray.len closes)).
  destruct (Z.ltb_spec (JsArray.len closes) period) as [Hlt|Hge].
  - reflexivity.
  - replace period with (JsArray.len closes) by lia. reflexivity.
Qed.

(** X12. On at most 50 bars the snapshot's [ma50] and [ma200] are the same
    number, and on at most 20 bars [ma20] is that number too: each average
    is taken over the whole series. The technical route computes snapshots
    from a one-month history, and a generated one has 31 bars: there
    [ma50] and [ma200] always coincide. *)
Theorem short_series_moving_averages
    (now : Z) (sym : string) (bars : list (HistoricalPrice N)) :
  JsArray.len bars <= 50 ->
  let ma := movingAverages (calculateTechnicalIndicators now bars sym) in
  ma.(ma50) = ma.(ma200)
  /\ ma.(ma200) = calculateSMA (map close bars) (JsArray.len bars)
  /\ (JsArray.len bars <= 20 -> ma.(ma20) = ma.(ma50)).
Proof.
  intros Hlen ma. subst ma.
  unfold calculateTechnicalIndicators.
  cbn [movingAverages ma20 ma50 ma200].
  set (closes := map close bars).
  assert (Hcloses : JsArray.len closes = JsArray.len bars)
    by (unfold JsArray.len, closes; rewrite length_map; reflexivity).
  rewrite (Z.min_r 200 (JsArray.len closes)) by lia.
  split; [|split].
  - apply calculateSMA_clamped. lia.
  - rewrite Hcloses. reflexivity.
  - intros H20.
    rewrite (calculateSMA_clamped closes 20) by lia.
    rewrite (calculateSMA_clamped closes 50) by lia. reflexivity.
Qed.

End MovingAverageFacts.

Lemma short_series_moving_averages_witness :
  let bars :=
    generate_from (N:=float) (fun _ => of_Z 0) (fun _ => "") 31 30
      (of_Z 4200) 0 in
  let ma := movingAverages (calculateTechnicalIndicators 0 bars "TCS") in
  generateRealisticHistoricalData (fun _ => of_Z 0) (fun _ => "") "TCS" "1M"
  = Normal bars
  /\ JsArray.len bars <= 50
  /\ ma.(ma50) = ma.(ma200)
  /\ ma.(ma200) = calculateSMA (map close bars) (JsArray.len bars)
  /\ (JsArray.len bars <= 20 -> ma.(ma20) = ma.(ma50)).
Proof.
  cbv zeta. split; [reflexivity|].
  assert (Hlen : JsArray.len
                   (generate_from (N:=float) (fun _ => of_Z 0) (fun _ => "")
                      31 30 (of_Z 4200) 0) <= 50).
  { unfold JsArray.len. rewrite generate_from_length. lia. }
  split; [exact Hlen|].
  apply (short_series_moving_averages 0 "TCS"
           (generate_from (N:=float) (fun _ => of_Z 0) (fun _ => "") 31 30
              (of_Z 4200) 0) Hlen).
Defined.

(** ** The RSI of a series that only rises, or only falls *)

Lemma filter_all {A} (P : A -> Prop) `{forall x, Decision (P x)}
    (l : list A) :
  Forall P l -> filter P l = l.
Proof.
  induction 1 as [|x l Hx _ IH]; [reflexivity|].
  rewrite filter_cons_True by exact Hx. rewrite IH. reflexivity.
Qed.

Lemma changes_of_reals (rs : list R) :
  changes_of (map XFin rs) = map XFin (Rchanges rs).
Proof.
  induction rs as [|a rs IH]; [reflexivity|].
  destruct rs as [|b rs]; [reflexivity|].
  change (changes_of (map XFin (a :: b :: rs)))
    with (XFin (b - a) :: changes_of (map XFin (b :: rs))).
  rewrite IH. reflexivity.
Qed.

Lemma Rchanges_length (rs : list R) :
  length (Rchanges rs) = (length rs - 1)%nat.
Proof.
  induction rs as [|a rs IH]; [reflexivity|].
  destruct rs as [|b rs]; [reflexivity|].
  change (Rchanges (a :: b :: rs)) with ((b - a)%R :: Rchanges (b :: rs)).
  simpl length in *. rewrite IH. lia.
Qed.

Lemma Rsum_abs_positive (ds : list R) :
  ds <> [] -> Forall (fun d => (d < 0)%R) ds ->
  (0 < Rsum (map Rabs ds))%R.
Proof.
  intros Hne Hneg. destruct Hneg as [|d ds Hd Hds]; [congruence|].
  simpl. clear Hne.
  assert (Hrest : (0 <= Rsum (map Rabs ds))%R).
  { clear Hds. induction ds as [|x ds IH]; simpl; [lra|].
    pose proof (Rabs_pos x). lra. }
  rewrite (Rabs_left d Hd). lra.
Qed.

(** X15. In exact arithmetic, on at least 15 finite closes: when no close
    is below the one before it, [calculateRSI] is exactly 100, and when
    every close is below the one before it, exactly 0. *)
Theorem rsi_of_monotone_series (rs : list R) :
  (15 <= length rs)%nat ->
  (Forall (fun d => (0 <= d)%R) (Rchanges rs) ->
   calculateRSI (map XFin rs) 14 = of_Z 100)
  /\ (Forall (fun d => (d < 0)%R) (Rchanges rs) ->
      calculateRSI (map XFin rs) 14 = of_Z 0).
Proof.
  intros Hlen. unfold calculateRSI.
  replace (JsArray.len (map XFin rs) <? 14 + 1) with false.
  2:{ symmetry. apply Z.ltb_ge. unfold JsArray.len. rewrite length_map. lia. }
  rewrite changes_of_reals, slice_map.
  set (ds := JsArray.slice (- (14)) (Rchanges rs)).
  assert (Hne : ds <> []).
  { apply slice_window_nonempty; [lia|].
    intros Hnil. apply (f_equal length) in Hnil.
    rewrite Rchanges_length in Hnil. simpl in Hnil. lia. }
  split; intros Hmono; apply (slice_Forall _ (- (14))) in Hmono; fold ds in Hmono.
  - rewrite (filter_none (fun c => ltb c (of_Z 0) = true)).
    2:{ apply Forall_forall. intros c Hc.
        apply list_elem_of_fmap in Hc as [d [-> Hd]].
        rewrite Forall_forall in Hmono. specialize (Hmono d Hd).
        simpl. rewrite bool_decide_eq_false_2 by lra. discriminate. }
    simpl. rewrite bool_decide_eq_true_2 by reflexivity. reflexivity.
  - rewrite (filter_none (fun c => ltb (of_Z 0) c = true)).
    2:{ apply Forall_forall. intros c Hc.
        apply list_elem_of_fmap in Hc as [d [-> Hd]].
        rewrite Forall_forall in Hmono. specialize (Hmono d Hd).
        simpl. rewrite bool_decide_eq_false_2 by lra. discriminate. }
    rewrite (filter_all (fun c => ltb c (of_Z 0) = true)).
    2:{ apply Forall_forall. intros c Hc.
        apply list_elem_of_fmap in Hc as [d [-> Hd]].
        rewrite Forall_forall in Hmono. specialize (Hmono d Hd).
        simpl. apply bool_decide_eq_true_2. lra. }
    rewrite map_map.
    change (map (fun x => Math_abs (XFin x)) ds)
      with (map (fun x => XFin (Rabs x)) ds).
    rewrite <- (map_map Rabs XFin).
    pose proof (Rsum_abs_positive ds Hne Hmono) as Hpos.
    replace (0 <? JsArray.len (map XFin (map Rabs ds))) with true.
    2:{ symmetry. apply len_positive_iff_cons.
        destruct ds; [congruence|discriminate]. }
    unfold JsArray.reduce. simpl of_Z. rewrite sum_of_reals.
    change (0 <? JsArray.len (@nil xreal)) with false. cbv iota.
    rewrite (div_of_reals _ 14) by lra.
    set (l := ((0 + Rsum (map Rabs ds)) / 14)%R).
    assert (Hl : (0 < l)%R) by (unfold l; lra).
    simpl eqb. rewrite bool_decide_eq_false_2 by lra.
    rewrite (div_of_reals 0 l) by lra.
    simpl add.
    assert (Hzero : (0 / l = 0)%R) by (field; lra).
    rewrite (div_of_reals 100 (1 + 0 / l)) by (rewrite Hzero; lra).
    simpl sub. f_equal. rewrite Hzero. field.
Qed.

Lemma rsi_of_monotone_series_witness :
  let rising := [1; 2; 3; 4; 5; 6; 7; 8; 9; 10; 11; 12; 13; 14; 15]%R in
  (15 <= length rising)%nat
  /\ (Forall (fun d => (0 <= d)%R) (Rchanges rising) ->
      calculateRSI (map XFin rising) 14 = of_Z 100)
  /\ (Forall (fun d => (d < 0)%R) (Rchanges rising) ->
      calculateRSI (map XFin rising) 14 = of_Z 0).
Proof.
  cbv zeta. split; [simpl; lia|].
  apply (rsi_of_monotone_series
           [1; 2; 3; 4; 5; 6; 7; 8; 9; 10; 11; 12; 13; 14; 15]%R).
  simpl. lia.
Defined.

(** ** The fallback recommendation *)

Lemma macd_of_reals (closes : list xreal) :
  Forall finite closes ->
  exists e12 e26,
    calculateEMA closes 12 = XFin e12
    /\ calculateEMA closes 26 = XFin e26
    /\ calculateMACD closes
       = {| value := XFin (fix2 (e12 - e26));
            signal := XFin (fix2 ((e12 - e26) * (8 / 10)));
            histogram := XFin (fix2 ((e12 - e26) * (2 / 10))) |}.
Proof.
  intros Hfin.
  destruct (ema_of_reals closes 12 eq_refl Hfin) as [e12 H12].
  destruct (ema_of_reals closes 26 eq_refl Hfin) as [e26 H26].
  exists e12, e26. split; [exact H12|]. split; [exact H26|].
  unfold calculateMACD. rewrite lit_0_8_ideal, lit_0_2_ideal, H12, H26.
  simpl sub. simpl mul. rewrite !toFixed2_fin. reflexivity.
Qed.

(** X16. The fallback recommendation is one of three: BUY with confidence
    75 and risk Medium, SELL with confidence 70 and risk High, or HOLD with
    confidence 50 and risk High; so the risk is Medium exactly for a BUY.
    It never has a target price, its horizon is Short and its current
    price is the quote's. On a snapshot computed from fewer than 15 bars
    (RSI 50) it is always HOLD. In doubles and in exact arithmetic. *)
Theorem fallback_recommendation_shape :
  (forall now sym (q : Quote.StockPrice float) (ti : TechnicalIndicators float),
     let r := Advice.generateFallbackRecommendation now sym q ti in
     ((Advice.recommendation r = Advice.BUY
       /\ Advice.confidence r = of_Z 75
       /\ Advice.riskLevel r = Advice.Medium)
      \/ (Advice.recommendation r = Advice.SELL
          /\ Advice.confidence r = of_Z 70
          /\ Advice.riskLevel r = Advice.High)
      \/ (Advice.recommendation r = Advice.HOLD
          /\ Advice.confidence r = of_Z 50
          /\ Advice.riskLevel r = Advice.High))
     /\ Advice.targetPrice r = None
     /\ Advice.timeHorizon r = Advice.Short
     /\ Advice.currentPrice r = Quote.price q)
  /\ (forall now sym (q : Quote.StockPrice xreal) (ti : TechnicalIndicators xreal),
        let r := Advice.generateFallbackRecommendation now sym q ti in
        ((Advice.recommendation r = Advice.BUY
          /\ Advice.confidence r = of_Z 75
          /\ Advice.riskLevel r = Advice.Medium)
         \/ (Advice.recommendation r = Advice.SELL
             /\ Advice.confidence r = of_Z 70
             /\ Advice.riskLevel r = Advice.High)
         \/ (Advice.recommendation r = Advice.HOLD
             /\ Advice.confidence r = of_Z 50
             /\ Advice.riskLevel r = Advice.High))
        /\ Advice.targetPrice r = None
        /\ Advice.timeHorizon r = Advice.Short
        /\ Advice.currentPrice r = Quote.price q)
  /\ (forall now now' sym (q : Quote.StockPrice float)
             (bars : list (HistoricalPrice float)),
        JsArray.len bars < 15 ->
        Advice.recommendation
          (Advice.generateFallbackRecommendation now' sym q
             (calculateTechnicalIndicators now bars sym)) = Advice.HOLD)
  /\ (forall now now' sym (q : Quote.StockPrice xreal)
             (bars : list (HistoricalPrice xreal)),
        JsArray.len bars < 15 ->
        Advice.recommendation
          (Advice.generateFallbackRecommendation now' sym q
             (calculateTechnicalIndicators now bars sym)) = Advice.HOLD).
Proof.
  split; [|split; [|split]].
  - intros now sym q ti r. subst r.
    unfold Advice.generateFallbackRecommendation.
    destruct (ltb (rsi ti) (of_Z 30) && ltb (signal (macd ti)) (value (macd ti))
              && ltb (ma20 (movingAverages ti)) (Quote.price q)).
    { split; [left|]; repeat split. }
    destruct (ltb (of_Z 70) (rsi ti)
              && ltb (value (macd ti)) (signal (macd ti))
              && ltb (Quote.changePercent q) (of_Z (-2))).
    { split; [right; left|]; repeat split. }
    split; [right; right|]; repeat split.
  - intros now sym q ti r. subst r.
    unfold Advice.generateFallbackRecommendation.
    destruct (ltb (rsi ti) (of_Z 30) && ltb (signal (macd ti)) (value (macd ti))
              && ltb (ma20 (movingAverages ti)) (Quote.price q)).
    { split; [left|]; repeat split. simpl.
      rewrite bool_decide_eq_true_2 by lra. reflexivity. }
    destruct (ltb (of_Z 70) (rsi ti)
              && ltb (value (macd ti)) (signal (macd ti))
              && ltb (Quote.changePercent q) (of_Z (-2))).
    { split; [right; left|]; repeat split. simpl.
      rewrite bool_decide_eq_false_2 by lra. reflexivity. }
    split; [right; right|]; repeat split. simpl.
    rewrite bool_decide_eq_false_2 by lra. reflexivity.
  - intros now now' sym q bars Hlen.
    unfold Advice.generateFallbackRecommendation, calculateTechnicalIndicators.
    cbn [rsi].
    rewrite rsi_fallback
      by (unfold JsArray.len in *; rewrite length_map; lia).
    change (ltb (of_Z 50 : float) (of_Z 30)) with false.
    change (ltb (of_Z 70 : float) (of_Z 50)) with false.
    reflexivity.
  - intros now now' sym q bars Hlen.
    unfold Advice.generateFallbackRecommendation, calculateTechnicalIndicators.
    cbn [rsi].
    rewrite rsi_fallback
      by (unfold JsArray.len in *; rewrite length_map; lia).
    assert (H1 : ltb (of_Z 50 : xreal) (of_Z 30) = false)
      by (simpl; apply bool_decide_eq_false_2; lra).
    assert (H2 : ltb (of_Z 70 : xreal) (of_Z 50) = false)
      by (simpl; apply bool_decide_eq_false_2; lra).
    rewrite H1, H2. reflexivity.
Qed.

(** X17. In exact arithmetic, on a snapshot computed from finite closes,
    the fallback recommendation says BUY only when the 12-period EMA is
    above the 26-period EMA, and SELL only when it is below: the rounded
    MACD value can exceed the rounded signal (0.8 of the line) only for a
    positive line. *)
Theorem fallback_follows_ema_crossover
    (now now' : Z) (sym : string) (q : Quote.StockPrice xreal)
    (bars : list (HistoricalPrice xreal)) :
  Forall finite (map close bars) ->
  let r := Advice.generateFallbackRecommendation now' sym q
             (calculateTechnicalIndicators now bars sym) in
  exists e12 e26,
    calculateEMA (map close bars) 12 = XFin e12
    /\ calculateEMA (map close bars) 26 = XFin e26
    /\ (Advice.recommendation r = Advice.BUY -> (e26 < e12)%R)
    /\ (Advice.recommendation r = Advice.SELL -> (e12 < e26)%R).
Proof.
  intros Hfin r. subst r.
  destruct (macd_of_reals _ Hfin) as (e12 & e26 & H12 & H26 & Hmacd).
  exists e12, e26. split; [exact H12|]. split; [exact H26|].
  unfold Advice.generateFallbackRecommendation, calculateTechnicalIndicators.
  cbn [rsi macd movingAverages ma20]. rewrite Hmacd. cbn [value signal].
  set (line := (e12 - e26)%R).
  assert (Hup : ltb (XFin (fix2 (line * (8 / 10)))) (XFin (fix2 line)) = true
                -> (0 < line)%R).
  { simpl. intros Hlt. apply bool_decide_eq_true in Hlt.
    destruct (Rle_lt_dec line 0) as [Hle|Hgt]; [|exact Hgt].
    assert (fix2 line <= fix2 (line * (8 / 10)))%R
      by (apply fix2_mono; lra).
    lra. }
  assert (Hdown : ltb (XFin (fix2 line)) (XFin (fix2 (line * (8 / 10)))) = true
                  -> (line < 0)%R).
  { simpl. intros Hlt. apply bool_decide_eq_true in Hlt.
    destruct (Rle_lt_dec 0 line) as [Hle|Hgt]; [|exact Hgt].
    assert (fix2 (line * (8 / 10)) <= fix2 line)%R
      by (apply fix2_mono; lra).
    lra. }
  destruct (ltb (calculateRSI (map close bars) 14) (of_Z 30)) eqn:Hrsi1;
    destruct (ltb (XFin (fix2 (line * (8 / 10)))) (XFin (fix2 line))) eqn:Hb;
    destruct (ltb (calculateSMA (map close bars) 20) (Quote.price q)) eqn:Hp;
    destruct (ltb (of_Z 70) (calculateRSI (map close bars) 14)) eqn:Hrsi2;
    destruct (ltb (XFin (fix2 line)) (XFin (fix2 (line * (8 / 10))))) eqn:Hs;
    destruct (ltb (Quote.changePercent q) (of_Z (-2))) eqn:Hc;
    simpl;
    (split; intros Hrec;
     first [ discriminate Hrec
           | pose proof (Hup eq_refl); unfold line in *; lra
           | pose proof (Hdown eq_refl); unfold line in *; lra ]).
Qed.

(** When none of the last 14 changes is a loss, the RSI is 100. *)
Lemma rsi_without_losses (rs : list R) :
  (15 <= length rs)%nat ->
  Forall (fun d => (0 <= d)%R) (JsArray.slice (- (14)) (Rchanges rs)) ->
  calculateRSI (map XFin rs) 14 = of_Z 100.
Proof.
  intros Hlen Hmono. unfold calculateRSI.
  replace (JsArray.len (map XFin rs) <? 14 + 1) with false.
  2:{ symmetry. apply Z.ltb_ge. unfold JsArray.len. rewrite length_map. lia. }
  rewrite changes_of_reals, slice_map.
  set (ds := JsArray.slice (- (14)) (Rchanges rs)) in *.
  rewrite (filter_none (fun c => ltb c (of_Z 0) = true)).
  2:{ apply Forall_forall. intros c Hc.
      apply list_elem_of_fmap in Hc as [d [-> Hd]].
      rewrite Forall_forall in Hmono. specialize (Hmono d Hd).
      simpl. rewrite bool_decide_eq_false_2 by lra. discriminate. }
  simpl. rewrite bool_decide_eq_true_2 by reflexivity. reflexivity.
Qed.

(** On [fall_then_rise] the fast average is below the slow one by more
    than 0.05, so the rounded MACD value is below the rounded signal. *)
Lemma fall_then_rise_crossover :
  let e12 := fold_left (ema_step 12) (tail fall_then_rise) 200%R in
  let e26 := fold_left (ema_step 26) (tail fall_then_rise) 200%R in
  (e12 - e26 < - (5 / 100))%R
  /\ (fix2 (e12 - e26) < fix2 ((e12 - e26) * (8 / 10)))%R.
Proof.
  cbv zeta.
  set (e12 := fold_left (ema_step 12) (tail fall_then_rise) 200%R).
  set (e26 := fold_left (ema_step 26) (tail fall_then_rise) 200%R).
  assert (Hline : (e12 - e26 < - (5 / 100))%R).
  { unfold e12, e26, fall_then_rise, ema_step. simpl.
    change (IZR (12 + 1)) with 13%R. change (IZR (26 + 1)) with 27%R. lra. }
  split; [exact Hline|].
  pose proof (Rabs_le_bounds _ _ (fix2_error (e12 - e26))) as Hv.
  pose proof (Rabs_le_bounds _ _ (fix2_error ((e12 - e26) * (8 / 10)))) as Hs.
  lra.
Qed.

(** The fallback recommendation on [fall_then_rise], for a quote that
    lost 3 percent, is SELL. *)
Lemma fall_then_rise_sell (now now' : Z) :
  Advice.recommendation
    (Advice.generateFallbackRecommendation now' "TCS" falling_quote
       (calculateTechnicalIndicators now
          (map (fun c => bar (XFin c)) fall_then_rise) "TCS"))
  = Advice.SELL.
Proof.
  unfold Advice.generateFallbackRecommendation, calculateTechnicalIndicators.
  cbn [rsi macd movingAverages ma20].
  rewrite map_map. change (fun x : R => close (bar (XFin x))) with XFin.
  rewrite rsi_without_losses.
  2:{ simpl. lia. }
  2:{ unfold fall_then_rise. simpl.
      change (JsArray.slice (-14) ?l) with (tail l).
      simpl. repeat constructor; lra. }
  unfold calculateMACD.
  change (map XFin fall_then_rise)
    with (map XFin (200%R :: tail fall_then_rise)).
  rewrite !ema_reals by lia.
  destruct fall_then_rise_crossover as [_ Hcross]. cbv zeta in Hcross.
  set (e12 := fold_left (ema_step 12) (tail fall_then_rise) 200%R) in *.
  set (e26 := fold_left (ema_step 26) (tail fall_then_rise) 200%R) in *.
  rewrite lit_0_8_ideal, lit_0_2_ideal.
  simpl sub. simpl mul. rewrite !toFixed2_fin. cbn [value signal].
  assert (H1 : ltb (of_Z 100 : xreal) (of_Z 30) = false)
    by (simpl; apply bool_decide_eq_false_2; lra).
  assert (H2 : ltb (of_Z 70 : xreal) (of_Z 100) = true)
    by (simpl; apply bool_decide_eq_true_2; lra).
  assert (H3 : ltb (XFin (fix2 (e12 - e26)))
                   (XFin (fix2 ((e12 - e26) * (8 / 10)))) = true)
    by (simpl; apply bool_decide_eq_true_2; exact Hcross).
  assert (H4 : ltb (Quote.changePercent falling_quote) (of_Z (-2)) = true)
    by (simpl; apply bool_decide_eq_true_2; lra).
  rewrite H1, H2, H3, H4. reflexivity.
Qed.

Lemma fallback_follows_ema_crossover_witness :
  let bars := map (fun c => bar (XFin c)) fall_then_rise in
  let r := Advice.generateFallbackRecommendation 0 "TCS" falling_quote
             (calculateTechnicalIndicators 0 bars "TCS") in
  Forall finite (map close bars)
  /\ Advice.recommendation r = Advice.SELL
  /\ exists e12 e26,
       calculateEMA (map close bars) 12 = XFin e12
       /\ calculateEMA (map close bars) 26 = XFin e26
       /\ (e12 < e26)%R.
Proof.
  cbv zeta.
  assert (Hfin : Forall finite
                   (map close (map (fun c => bar (XFin c)) fall_then_rise)))
    by (repeat constructor).
  split; [exact Hfin|]. split; [apply fall_then_rise_sell|].
  destruct (fallback_follows_ema_crossover 0 0 "TCS" falling_quote
              (map (fun c => bar (XFin c)) fall_then_rise) Hfin)
    as (e12 & e26 & H12 & H26 & _ & Hsell).
  exists e12, e26. split; [exact H12|]. split; [exact H26|].
  apply Hsell. apply fall_then_rise_sell.
Defined.

(** ** The price route ([routes.ts], lines 10-38) *)

Section PriceRouteFacts.
Context {N : Type}.
Variable parseSymbol : string -> option string.
Implicit Types (w : Quote.World N) (p fresh : Quote.StockPrice N).

Lemma price_route_hit getCurrentPrice (now : Z) (param sym : string) w p :
  parseSymbol param = Some sym ->
  Quote.getStockPrice sym w = Some p ->
  now - Quote.lastUpdated p <= 60000 ->
  Quote.priceRoute parseSymbol getCurrentPrice now param w
  = (Quote.Json p, w).
Proof.
  intros Hsym Hp Hage. unfold Quote.priceRoute. rewrite Hsym.
  cbv zeta. rewrite Hp.
  assert (Hfresh : (60000 <? now - Quote.lastUpdated p) = false)
    by (apply Z.ltb_ge; exact Hage).
  rewrite Hfresh. reflexivity.
Qed.

Lemma price_route_refresh getCurrentPrice (now : Z) (param sym : string)
    w fresh :
  parseSymbol param = Some sym ->
  (Quote.getStockPrice sym w = None
   \/ exists p, Quote.getStockPrice sym w = Some p
                /\ 60000 < now - Quote.lastUpdated p) ->
  getCurrentPrice sym = Some fresh ->
  Quote.priceRoute parseSymbol getCurrentPrice now param w
  = (Quote.Json fresh,
     {| Quote.stockPrices :=
          <[Quote.symbol fresh := fresh]> (Quote.stockPrices w);
        Quote.fetched := S (Quote.fetched w) |}).
Proof.
  intros Hsym Hstale Hfresh. unfold Quote.priceRoute. rewrite Hsym.
  cbv zeta. rewrite Hfresh.
  destruct Hstale as [Hnone|(p & Hp & Hage)].
  - rewrite Hnone. reflexivity.
  - rewrite Hp.
    assert (Hold : (60000 <? now - Quote.lastUpdated p) = true)
      by (apply Z.ltb_lt; exact Hage).
    rewrite Hold. reflexivity.
Qed.

Lemma price_route_upstream_null getCurrentPrice (now : Z)
    (param sym : string) w :
  parseSymbol param = Some sym ->
  (Quote.getStockPrice sym w = None
   \/ exists p, Quote.getStockPrice sym w = Some p
                /\ 60000 < now - Quote.lastUpdated p) ->
  getCurrentPrice sym = None ->
  Quote.priceRoute parseSymbol getCurrentPrice now param w
  = (match Quote.getStockPrice sym w with
     | Some p => Quote.Json p
     | None => Quote.Error 404 "Stock not found"
     end,
     {| Quote.stockPrices := Quote.stockPrices w;
        Quote.fetched := S (Quote.fetched w) |}).
Proof.
  intros Hsym Hstale Hnull. unfold Quote.priceRoute. rewrite Hsym.
  cbv zeta. rewrite Hnull.
  destruct Hstale as [Hnone|(p & Hp & Hage)].
  - rewrite Hnone. reflexivity.
  - rewrite Hp.
    assert (Hold : (60000 <? now - Quote.lastUpdated p) = true)
      by (apply Z.ltb_lt; exact Hage).
    rewrite Hold. reflexivity.
Qed.

(** X18. For a valid symbol the price route answers a cached quote of at
    most 60000 ms as it is, asking nobody and writing nothing. With no
    quote cached, or an older one, it asks the service exactly once: a
    quote that comes back is answered and stored under the symbol the
    quote itself carries; when none comes back nothing is stored, and the
    answer is the old quote, however old, or 404 when there is none. *)
Theorem price_route_policy getCurrentPrice (now : Z) (param sym : string) w :
  parseSymbol param = Some sym ->
  let result := Quote.priceRoute parseSymbol getCurrentPrice now param w in
  let cached := Quote.getStockPrice sym w in
  (forall p, cached = Some p -> now - Quote.lastUpdated p <= 60000 ->
     result = (Quote.Json p, w))
  /\ ((cached = None
       \/ exists p, cached = Some p /\ 60000 < now - Quote.lastUpdated p) ->
      Quote.fetched result.2 = S (Quote.fetched w)
      /\ (forall fresh, getCurrentPrice sym = Some fresh ->
            result.1 = Quote.Json fresh
            /\ Quote.stockPrices result.2
               = <[Quote.symbol fresh := fresh]> (Quote.stockPrices w))
      /\ (getCurrentPrice sym = None ->
            Quote.stockPrices result.2 = Quote.stockPrices w
            /\ result.1 = match cached with
                          | Some p => Quote.Json p
                          | None => Quote.Error 404 "Stock not found"
                          end)).
Proof.
  intros Hsym result cached. subst result cached. split.
  - intros p Hp Hage. apply (price_route_hit _ now param sym); assumption.
  - intros Hstale.
    destruct (getCurrentPrice sym) as [fresh|] eqn:Hfresh.
    + rewrite (price_route_refresh _ now param sym w fresh Hsym Hstale Hfresh).
      split; [reflexivity|]. split.
      * intros fresh' Heq. injection Heq as <-. split; reflexivity.
      * intros Hnull. discriminate Hnull.
    + rewrite (price_route_upstream_null _ now param sym w Hsym Hstale Hfresh).
      split; [reflexivity|]. split.
      * intros fresh' Heq. discriminate Heq.
      * intros _. split; reflexivity.
Qed.

(** X19. When the first request for a symbol finds nothing cached and the
    service answers a quote: if the quote carries the requested symbol, a
    second request within 60000 ms of the quote's timestamp is answered
    with the same quote without asking the service; if the quote carries
    another symbol, the requested symbol is still not cached, and the
    second request asks the service again. *)
Theorem price_route_refresh_then_hit getCurrentPrice getCurrentPrice'
    (now now' : Z) (param sym : string) w fresh :
  parseSymbol param = Some sym ->
  Quote.getStockPrice sym w = None ->
  getCurrentPrice sym = Some fresh ->
  let first := Quote.priceRoute parseSymbol getCurrentPrice now param w in
  let second :=
    Quote.priceRoute parseSymbol getCurrentPrice' now' param first.2 in
  (Quote.symbol fresh = sym -> now' - Quote.lastUpdated fresh <= 60000 ->
   second = (Quote.Json fresh, first.2))
  /\ (Quote.symbol fresh <> sym ->
      Quote.getStockPrice sym first.2 = None
      /\ Quote.fetched second.2 = S (S (Quote.fetched w))).
Proof.
  intros Hsym Hnone Hfresh first second. subst second first.
  rewrite (price_route_refresh _ now param sym w fresh Hsym
             (or_introl Hnone) Hfresh).
  cbn [snd]. split.
  - intros Hkey Hage. apply (price_route_hit _ now' param sym).
    + exact Hsym.
    + unfold Quote.getStockPrice. cbn [Quote.stockPrices].
      rewrite Hkey. apply lookup_insert_eq.
    + exact Hage.
  - intros Hkey.
    assert (Hstill :
      Quote.getStockPrice sym
        {| Quote.stockPrices :=
             <[Quote.symbol fresh := fresh]> (Quote.stockPrices w);
           Quote.fetched := S (Quote.fetched w) |} = None).
    { unfold Quote.getStockPrice. cbn [Quote.stockPrices].
      rewrite lookup_insert_ne by exact Hkey. exact Hnone. }
    split; [exact Hstill|].
    destruct (getCurrentPrice' sym) as [fresh'|] eqn:Hsecond.
    + rewrite (price_route_refresh _ now' param sym _ fresh' Hsym
                 (or_introl Hstill) Hsecond). reflexivity.
    + rewrite (price_route_upstream_null _ now' param sym _ Hsym
                 (or_introl Hstill) Hsecond). reflexivity.
Qed.

End PriceRouteFacts.

Lemma price_route_policy_witness :
  let w := Quote.setStockPrice (quote_at "TCS" 0) no_quotes in
  let result := Quote.priceRoute Some (fun _ => None) 60001 "TCS" w in
  Some "TCS" = Some "TCS"
  /\ (exists p, Quote.getStockPrice "TCS" w = Some p
                /\ 60000 < 60001 - Quote.lastUpdated p)
  /\ Quote.fetched result.2 = 1%nat
  /\ Quote.stockPrices result.2 = Quote.stockPrices w
  /\ result.1 = Quote.Json (quote_at "TCS" 0).
Proof.
  cbv zeta.
  assert (Hold : exists p,
            Quote.getStockPrice "TCS"
              (Quote.setStockPrice (quote_at "TCS" 0) no_quotes) = Some p
            /\ 60000 < 60001 - Quote.lastUpdated p).
  { exists (quote_at "TCS" 0). split; [reflexivity|]. simpl. lia. }
  split; [reflexivity|]. split; [exact Hold|].
  destruct (price_route_policy Some (fun _ => None) 60001 "TCS" "TCS"
              (Quote.setStockPrice (quote_at "TCS" 0) no_quotes) eq_refl)
    as [_ Hstale].
  destruct (Hstale (or_intror Hold)) as (Hfetched & _ & Hnull).
  destruct (Hnull eq_refl) as [Hstore Hanswer].
  split; [exact Hfetched|]. split; [exact Hstore|]. exact Hanswer.
Defined.

Lemma price_route_refresh_then_hit_witness :
  let first :=
    Quote.priceRoute Some (fun sym => Some (quote_at sym 1000)) 1000
      "TCS" no_quotes in
  let second := Quote.priceRoute Some (fun _ => None) 61000 "TCS" first.2 in
  Some "TCS" = Some "TCS"
  /\ Quote.getStockPrice "TCS" no_quotes = None
  /\ 61000 - Quote.lastUpdated (quote_at "TCS" 1000) <= 60000
  /\ second = (Quote.Json (quote_at "TCS" 1000), first.2).
Proof.
  cbv zeta. split; [reflexivity|]. split; [reflexivity|].
  assert (Hage : 61000 - Quote.lastUpdated (quote_at "TCS" 1000) <= 60000)
    by (simpl; lia).
  split; [exact Hage|].
  destruct (price_route_refresh_then_hit Some
              (fun sym => Some (quote_at sym 1000)) (fun _ => None)
              1000 61000 "TCS" "TCS" no_quotes (quote_at "TCS" 1000)
              eq_refl eq_refl eq_refl) as [Hhit _].
  exact (Hhit eq_refl Hage).
Defined.
